(** * The stage cache of flatpak-builder (builder/builder-cache.c)

    A shallow embedding of [BuilderCache]: the checksum accumulator, the
    derivation of stage refs, and the lookup / checkout / commit / gc
    protocol over an OSTree repository.

    Conventions.
    - A C string ([char *], NUL terminated) is the [string] of its bytes
      before the terminator; a [NULL] pointer is [None].
    - [char] is the signed 8-bit type of the x86 ABIs.
    - [gboolean] is [bool]; [guint32] is a [Z] in [0, 2^32).
    - The OSTree repository and the application directory live in a
      [World] that every operation threads through; what a call into
      libostree, GIO or the build context answers beyond what the world
      determines (an I/O error, the checksum of a new object) is read from
      an environment record passed to the operation. *)

From Stdlib Require Import ZArith NArith Lia Bool List Ascii String.
From Stdlib.Strings Require Import Byte.
From stdpp Require Import base option list gmap sets strings.

Local Open Scope string_scope.
Local Open Scope Z_scope.

(** ** C characters and [printf ("%x")] *)

Module CChar.

(** The value of the byte, as [(guchar) c]. *)
Definition uchar (c : ascii) : Z := Z.of_N (N_of_ascii c).

(** The value of a [char] object holding the byte: [char] is signed, so
    the bytes 0x80..0xff are the negative values -128..-1. This is also the
    [int] a [char] argument of a variadic call is promoted to. *)
Definition char_value (c : ascii) : Z :=
  if uchar c <? 128 then uchar c else uchar c - 256.

(** [g_ascii_isalnum (c)]: looks [(guchar) c] up in the ASCII table, true
    for '0'..'9', 'A'..'Z' and 'a'..'z' only. *)
Definition g_ascii_isalnum (c : ascii) : bool :=
  let n := uchar c in
  ((48 <=? n) && (n <=? 57)) || ((65 <=? n) && (n <=? 90))
  || ((97 <=? n) && (n <=? 122)).

Definition hex_digit (d : Z) : ascii :=
  if d <? 10 then ascii_of_N (Z.to_N (48 + d))
  else ascii_of_N (Z.to_N (97 + (d - 10))).

(** Digits of [n], most significant first, in front of [acc]; at least one
    digit, no leading zero. *)
Fixpoint hex_digits (fuel : nat) (n : Z) (acc : string) : string :=
  match fuel with
  | O => acc
  | S fuel' =>
      let acc' := String (hex_digit (n mod 16)) acc in
      if n / 16 =? 0 then acc' else hex_digits fuel' (n / 16) acc'
  end.

(** What [printf ("%x", v)] prints for an [int] argument [v]: the
    argument is read as an [unsigned int], in lower case, without prefix
    or padding. *)
Definition printf_x (v : Z) : string := hex_digits 8 (v mod 2 ^ 32) "".

End CChar.
Export CChar.

(** ** SHA-256, the algorithm of [g_checksum_new (G_CHECKSUM_SHA256)] *)

Module Sha256.

Definition w32 (x : Z) : Z := Z.land x 4294967295.
Definition rotr (n x : Z) : Z :=
  Z.lor (Z.shiftr x n) (w32 (Z.shiftl x (32 - n))).
Definition xor3 (a b c : Z) : Z := Z.lxor (Z.lxor a b) c.
Definition Ch (x y z : Z) : Z :=
  Z.lxor (Z.land x y) (Z.land (Z.lxor x 4294967295) z).
Definition Maj (x y z : Z) : Z :=
  xor3 (Z.land x y) (Z.land x z) (Z.land y z).
Definition Sigma0 (x : Z) : Z := xor3 (rotr 2 x) (rotr 13 x) (rotr 22 x).
Definition Sigma1 (x : Z) : Z := xor3 (rotr 6 x) (rotr 11 x) (rotr 25 x).
Definition sigma0 (x : Z) : Z := xor3 (rotr 7 x) (rotr 18 x) (Z.shiftr x 3).
Definition sigma1 (x : Z) : Z := xor3 (rotr 17 x) (rotr 19 x) (Z.shiftr x 10).

(** The first 64 primes. *)
Definition is_prime (n : nat) : bool :=
  forallb (λ d, negb (Nat.eqb (n mod d) 0)) (seq 2 (n - 2)).
Definition primes64 : list Z :=
  Eval vm_compute in map Z.of_nat (filter is_prime (seq 2 310)).

(** The integer cube root, found bit by bit from [2 ^ bits] down. *)
Fixpoint cube_root_from (bits : nat) (n r : Z) : Z :=
  match bits with
  | O => r
  | S bits' =>
      let r' := r + 2 ^ Z.of_nat bits' in
      cube_root_from bits' n (if r' * r' * r' <=? n then r' else r)
  end.

(** The round constants: the first 32 bits of the fractional parts of the
    cube roots of the first 64 primes. *)
Definition K : list Z :=
  Eval vm_compute in
    map (λ p, w32 (cube_root_from 40 (p * 2 ^ 96) 0)) primes64.

(** The initial hash value: the first 32 bits of the fractional parts of
    the square roots of the first 8 primes. *)
Definition H0 : list Z :=
  Eval vm_compute in map (λ p, w32 (Z.sqrt (p * 2 ^ 64))) (firstn 8 primes64).

(** One round on the working variables [a..h]. *)
Definition round (k w : Z) (v : list Z) : list Z :=
  match v with
  | [a; b; c; d; e; f; g; h] =>
      let t1 := h + Sigma1 e + Ch e f g + k + w in
      let t2 := Sigma0 a + Maj a b c in
      [w32 (t1 + t2); a; b; c; w32 (d + t1); e; f; g]
  | _ => v
  end.

(** The 64 rounds; [w] is the window W[t..t+15] of the message schedule. *)
Fixpoint rounds (ks : list Z) (w : list Z) (v : list Z) : list Z :=
  match ks, w with
  | k :: ks', w0 :: w' =>
      let wnew :=
        w32 (sigma1 (nth 13 w' 0) + nth 8 w' 0 + sigma0 (nth 0 w' 0) + w0) in
      rounds ks' (w' ++ [wnew]) (round k w0 v)
  | _, _ => v
  end.

Definition compress (h : list Z) (block : list Z) : list Z :=
  map (fun p => w32 (fst p + snd p)) (combine h (rounds K block h)).

(** Big-endian words of a byte sequence. *)
Fixpoint be_words (fuel : nat) (bs : list Z) : list Z :=
  match fuel, bs with
  | S fuel', b0 :: b1 :: b2 :: b3 :: bs' =>
      (b0 * 16777216 + b1 * 65536 + b2 * 256 + b3) :: be_words fuel' bs'
  | _, _ => []
  end.

Fixpoint blocks (fuel : nat) (h : list Z) (ws : list Z) : list Z :=
  match fuel with
  | O => h
  | S fuel' =>
      match ws with
      | [] => h
      | _ => blocks fuel' (compress h (firstn 16 ws)) (skipn 16 ws)
      end
  end.

Definition be_bytes (n : nat) (x : Z) : list Z :=
  map (fun i => Z.land (Z.shiftr x (8 * Z.of_nat i)) 255) (rev (seq 0 n)).

(** Padding: 0x80, zeros up to 56 modulo 64, the bit length on 8 bytes. *)
Definition pad (msg : list Z) : list Z :=
  let len := Z.of_nat (List.length msg) in
  let zeros := Z.to_nat ((55 - len) mod 64) in
  msg ++ [128] ++ repeat 0 zeros ++ be_bytes 8 (8 * len).

Definition hash_words (msg : list byte) : list Z :=
  let bs := pad (map (fun b => Z.of_N (Byte.to_N b)) msg) in
  blocks (List.length bs) H0 (be_words (List.length bs) bs).

Fixpoint hex_fixed (n : nat) (x : Z) (acc : string) : string :=
  match n with
  | O => acc
  | S n' => hex_fixed n' (x / 16) (String (hex_digit (x mod 16)) acc)
  end.

(** The digest as 64 lower-case hexadecimal digits. *)
Definition sha256_hex (msg : list byte) : string :=
  fold_right (fun w acc => hex_fixed 8 w acc) "" (hash_words msg).

End Sha256.

(** ** The world outside the cache object *)

Inductive GFileType :=
| G_FILE_TYPE_REGULAR
| G_FILE_TYPE_DIRECTORY
| G_FILE_TYPE_SYMBOLIC_LINK
| G_FILE_TYPE_SPECIAL.

#[global] Instance GFileType_eq_dec : EqDecision GFileType.
Proof. solve_decision. Defined.

(** A file below the application directory, as [stat] and GIO report it. *)
Record FileInfo := {
  fi_type : GFileType;
  fi_content : string;
  fi_nlink : Z;
  fi_mtime : Z;
}.

(** A file as a commit stores it: extended attributes are skipped by both
    commit modifiers, and neither link count nor mtime is part of a tree. *)
Record TreeEntry := {
  te_type : GFileType;
  te_content : string;
}.

(** The commit variant [(a{sv}aya(say)sstayay)], reduced to the fields the
    cache writes and reads: parent, subject, body and root tree. *)
Record Commit := {
  c_parent : option string;
  c_subject : string;
  c_body : string;
  c_root : string;
}.

(** What an open transaction has staged. *)
Record Transaction := {
  txn_refs : gmap string string;
  txn_commits : gmap string Commit;
  txn_trees : gmap string (gmap string TreeEntry);
}.

Record World := {
  w_cache_dir_exists : bool;
  w_refs : gmap string string;
  w_commits : gmap string Commit;
  w_trees : gmap string (gmap string TreeEntry);
  w_txn : option Transaction;
  w_app_dir : gmap string FileInfo;
}.

Definition set_w_refs (r : gmap string string) (w : World) : World :=
  {| w_cache_dir_exists := w_cache_dir_exists w; w_refs := r;
     w_commits := w_commits w; w_trees := w_trees w; w_txn := w_txn w;
     w_app_dir := w_app_dir w |}.
Definition set_w_commits (c : gmap string Commit) (w : World) : World :=
  {| w_cache_dir_exists := w_cache_dir_exists w; w_refs := w_refs w;
     w_commits := c; w_trees := w_trees w; w_txn := w_txn w;
     w_app_dir := w_app_dir w |}.
Definition set_w_trees (t : gmap string (gmap string TreeEntry)) (w : World)
  : World :=
  {| w_cache_dir_exists := w_cache_dir_exists w; w_refs := w_refs w;
     w_commits := w_commits w; w_trees := t; w_txn := w_txn w;
     w_app_dir := w_app_dir w |}.
Definition set_w_txn (t : option Transaction) (w : World) : World :=
  {| w_cache_dir_exists := w_cache_dir_exists w; w_refs := w_refs w;
     w_commits := w_commits w; w_trees := w_trees w; w_txn := t;
     w_app_dir := w_app_dir w |}.
Definition set_w_app_dir (d : gmap string FileInfo) (w : World) : World :=
  {| w_cache_dir_exists := w_cache_dir_exists w; w_refs := w_refs w;
     w_commits := w_commits w; w_trees := w_trees w; w_txn := w_txn w;
     w_app_dir := d |}.

(** The result of a function that can end the process: [g_error] aborts,
    and so does dereferencing [NULL]. *)
Inductive outcome (A : Type) :=
| Returns (a : A)
| Aborted (w : World).
Arguments Returns {A} a.
Arguments Aborted {A} w.

(** ** libostree, as the cache uses it

    Every call fails on an I/O error ([io_ok] false) and where there is no
    repository in the cache directory. *)

Module Ostree.

Inductive OstreeRepoCheckoutMode :=
| OSTREE_REPO_CHECKOUT_MODE_NONE
| OSTREE_REPO_CHECKOUT_MODE_USER.

(** [Some rest] when [s] is [p] followed by [rest]. *)
Fixpoint strip_prefix (p s : string) : option string :=
  match p, s with
  | EmptyString, _ => Some s
  | String a p', String b s' =>
      if Ascii.eqb a b then strip_prefix p' s' else None
  | String _ _, EmptyString => None
  end.

(** [ostree_repo_resolve_rev (repo, refspec, allow_noent, &rev, error)]:
    [None] is the [FALSE] return; [Some None] is [TRUE] with [rev] left
    [NULL], which a missing ref gives when [allow_noent] is set. *)
Definition ostree_repo_resolve_rev (io_ok : bool) (w : World)
    (refspec : string) (allow_noent : bool) : option (option string) :=
  if io_ok && w_cache_dir_exists w then
    match w_refs w !! refspec with
    | Some rev => Some (Some rev)
    | None => if allow_noent then Some None else None
    end
  else None.

(** [ostree_repo_load_variant (repo, OSTREE_OBJECT_TYPE_COMMIT, sha256,
    &variant, error)]. *)
Definition ostree_repo_load_variant (io_ok : bool) (w : World)
    (sha256 : string) : option Commit :=
  if io_ok && w_cache_dir_exists w then w_commits w !! sha256 else None.

(** [ostree_repo_set_ref_immediate (repo, NULL, ref, checksum, ...)]:
    a [NULL] checksum deletes the ref. *)
Definition ostree_repo_set_ref_immediate (io_ok : bool) (w : World)
    (ref : string) (checksum : option string) : option World :=
  if io_ok && w_cache_dir_exists w then
    Some (set_w_refs
            match checksum with
            | Some c => <[ref := c]> (w_refs w)
            | None => delete ref (w_refs w)
            end w)
  else None.

(** [ostree_repo_list_refs (repo, refspec_prefix, &all_refs, ...)]: the
    refs below the prefix, named with the prefix and its [/] removed (it
    is [ostree_repo_list_refs_ext] that keeps the prefix). The cache reads
    the keys only. *)
Definition ostree_repo_list_refs (io_ok : bool) (w : World)
    (refspec_prefix : string) : option (gset string) :=
  if io_ok && w_cache_dir_exists w then
    Some (list_to_set
            (omap (strip_prefix (refspec_prefix +:+ "/"))
                  (elements (dom (w_refs w)))))
  else None.

Definition empty_transaction : Transaction :=
  {| txn_refs := ∅; txn_commits := ∅; txn_trees := ∅ |}.

(** [ostree_repo_prepare_transaction]: fails when one is open. *)
Definition ostree_repo_prepare_transaction (io_ok : bool) (w : World)
  : option World :=
  match w_txn w with
  | Some _ => None
  | None =>
      if io_ok && w_cache_dir_exists w
      then Some (set_w_txn (Some empty_transaction) w)
      else None
  end.

(** [ostree_repo_write_mtree]: stores the tree under its checksum, in the
    staging area while a transaction is open. *)
Definition ostree_repo_write_mtree (checksum : option string) (w : World)
    (mtree : gmap string TreeEntry) : option (string * World) :=
  match checksum with
  | None => None
  | Some root =>
      Some (root,
            match w_txn w with
            | Some t =>
                set_w_txn
                  (Some {| txn_refs := txn_refs t;
                           txn_commits := txn_commits t;
                           txn_trees := <[root := mtree]> (txn_trees t) |}) w
            | None => set_w_trees (<[root := mtree]> (w_trees w)) w
            end)
  end.

(** [ostree_repo_write_commit (repo, parent, subject, body, NULL, root,
    &out_commit, ...)]. The checksum returned names the commit object, which
    holds the time of the call beside the arguments; it is read from the
    environment. Objects are content addressed: an object written under a
    checksum that is present is that same object, and the map keeps what is
    written. *)
Definition ostree_repo_write_commit (checksum : option string) (w : World)
    (parent : option string) (subject body root : string)
  : option (string * World) :=
  match checksum with
  | None => None
  | Some id =>
      let c := {| c_parent := parent; c_subject := subject;
                  c_body := body; c_root := root |} in
      Some (id,
            match w_txn w with
            | Some t =>
                set_w_txn
                  (Some {| txn_refs := txn_refs t;
                           txn_commits := <[id := c]> (txn_commits t);
                           txn_trees := txn_trees t |}) w
            | None => set_w_commits (<[id := c]> (w_commits w)) w
            end)
  end.

(** [ostree_repo_transaction_set_ref (repo, NULL, ref, checksum)]: queued
    until the transaction commits; a no-op outside a transaction. *)
Definition ostree_repo_transaction_set_ref (w : World)
    (ref checksum : string) : World :=
  match w_txn w with
  | Some t =>
      set_w_txn
        (Some {| txn_refs := <[ref := checksum]> (txn_refs t);
                 txn_commits := txn_commits t;
                 txn_trees := txn_trees t |}) w
  | None => w
  end.

(** [ostree_repo_commit_transaction]: the staged objects and refs land
    together. A failure leaves the transaction open and the repository as
    it was. *)
Definition ostree_repo_commit_transaction (io_ok : bool) (w : World)
  : option World :=
  match w_txn w with
  | Some t =>
      if io_ok then
        Some {| w_cache_dir_exists := w_cache_dir_exists w;
                w_refs := txn_refs t ∪ w_refs w;
                w_commits := txn_commits t ∪ w_commits w;
                w_trees := txn_trees t ∪ w_trees w;
                w_txn := None;
                w_app_dir := w_app_dir w |}
      else None
  | None => None
  end.

(** [ostree_repo_abort_transaction]: drops what is staged; [TRUE] when no
    transaction is open; a failure leaves the transaction open. *)
Definition ostree_repo_abort_transaction (io_ok : bool) (w : World)
  : bool * World :=
  match w_txn w with
  | None => (true, w)
  | Some _ => if io_ok then (true, set_w_txn None w) else (false, w)
  end.

End Ostree.
Export Ostree.

Module OstreeTrees.

Inductive OstreeRepoCommitFilterResult :=
| OSTREE_REPO_COMMIT_FILTER_ALLOW
| OSTREE_REPO_COMMIT_FILTER_SKIP.

Definition tree_entry_of (fi : FileInfo) : TreeEntry :=
  {| te_type := fi_type fi; te_content := fi_content fi |}.

Definition filter_allows
    (filter : option (string → FileInfo → OstreeRepoCommitFilterResult))
    (path : string) (fi : FileInfo) : bool :=
  match filter with
  | None => true
  | Some f =>
      match f path fi with
      | OSTREE_REPO_COMMIT_FILTER_ALLOW => true
      | OSTREE_REPO_COMMIT_FILTER_SKIP => false
      end
  end.

(** [ostree_repo_write_directory_to_mtree (repo, dir, mtree, modifier, ...)]
    on the application directory, with a modifier that skips extended
    attributes and carries the given filter ([None] for a [NULL] filter). *)
Definition ostree_repo_write_directory_to_mtree (io_ok : bool) (w : World)
    (filter_fn : option (string → FileInfo → OstreeRepoCommitFilterResult))
  : option (gmap string TreeEntry) :=
  if io_ok then
    Some (tree_entry_of <$>
            filter (λ kv, filter_allows filter_fn kv.1 kv.2 = true)
                   (w_app_dir w))
  else None.

(** A file as a checkout creates it. In user mode a regular file is a hard
    link to the object in the repository, with mtime 0; otherwise it is a
    copy, stamped with the time [now] of the copy. *)
Definition checked_out_file (mode : OstreeRepoCheckoutMode) (now : Z)
    (te : TreeEntry) : FileInfo :=
  match mode with
  | OSTREE_REPO_CHECKOUT_MODE_USER =>
      {| fi_type := te_type te; fi_content := te_content te;
         fi_nlink := if decide (te_type te = G_FILE_TYPE_REGULAR) then 2 else 1;
         fi_mtime := 0 |}
  | OSTREE_REPO_CHECKOUT_MODE_NONE =>
      {| fi_type := te_type te; fi_content := te_content te;
         fi_nlink := 1; fi_mtime := now |}
  end.

(** [ostree_repo_checkout_at] into the application directory with
    [OSTREE_REPO_CHECKOUT_OVERWRITE_UNION_FILES]: the files of the commit
    replace those of the same path, the others stay. *)
Definition ostree_repo_checkout_at (io_ok : bool)
    (mode : OstreeRepoCheckoutMode) (now : Z) (w : World) (commit : string)
  : option World :=
  if io_ok then
    match w_commits w !! commit with
    | Some c =>
        match w_trees w !! c_root c with
        | Some t =>
            Some (set_w_app_dir
                    ((checked_out_file mode now <$> t) ∪ w_app_dir w) w)
        | None => None
        end
    | None => None
    end
  else None.

(** The commits reached from [id] through parent links. *)
Fixpoint ancestors (commits : gmap string Commit) (fuel : nat) (id : string)
  : gset string :=
  match fuel with
  | O => ∅
  | S fuel' =>
      match commits !! id with
      | None => ∅
      | Some c =>
          {[ id ]} ∪
          match c_parent c with
          | Some p => ancestors commits fuel' p
          | None => ∅
          end
      end
  end.

(** [ostree_repo_prune (repo, OSTREE_REPO_PRUNE_FLAGS_REFS_ONLY, -1, ...)]:
    keeps the commits reachable from a ref at any depth and their trees.
    The three counters it reports are not modelled: [builder_gc] drops
    them. *)
Definition ostree_repo_prune (io_ok : bool) (w : World) : option World :=
  if io_ok then
    let live : gset string :=
      ⋃ (ancestors (w_commits w) (size (w_commits w)) <$>
           (snd <$> map_to_list (w_refs w))) in
    let commits := filter (λ kv, kv.1 ∈ live) (w_commits w) in
    let roots : gset string :=
      list_to_set ((λ kv, c_root kv.2) <$> map_to_list commits) in
    Some (set_w_trees (filter (λ kv, kv.1 ∈ roots) (w_trees w))
            (set_w_commits commits w))
  else None.

(** [ostree_diff_dirs (flags, a, b, modified, removed, added, ...)] on two
    trees; a [NULL] first root is the empty tree. The result is
    (modified, removed, added). *)
Definition ostree_diff_dirs (io_ok : bool) (a : option (gmap string TreeEntry))
    (b : gmap string TreeEntry)
  : option (list string * list string * list string) :=
  if io_ok then
    let a := default ∅ a in
    let modified :=
      omap (λ kv, match a !! kv.1 with
                  | Some old =>
                      if decide (te_type old = te_type kv.2) then
                        if String.eqb (te_content old) (te_content kv.2)
                        then None else Some kv.1
                      else Some kv.1
                  | None => None
                  end) (map_to_list b) in
    let removed :=
      omap (λ kv, match b !! kv.1 with
                  | Some _ => None
                  | None => Some kv.1
                  end) (map_to_list a) in
    let added :=
      omap (λ kv, match a !! kv.1 with
                  | Some _ => None
                  | None => Some kv.1
                  end) (map_to_list b) in
    Some (modified, removed, added)
  else None.

(** [ostree_repo_read_commit (repo, ref, &root, NULL, ...)]. *)
Definition ostree_repo_read_commit (io_ok : bool) (w : World)
    (rev : option string) : option (gmap string TreeEntry) :=
  if io_ok then
    match rev with
    | Some id =>
        match w_commits w !! id with
        | Some c => w_trees w !! c_root c
        | None => None
        end
    | None => None
    end
  else None.

End OstreeTrees.
Export OstreeTrees.

(** Modelled from the spec: [flatpak_zero_mtime] is in flatpak-utils.c, not
    among the sources; it "zeroes all modification-times under the working
    directory". *)
Definition flatpak_zero_mtime (io_ok : bool) (w : World) : option World :=
  if io_ok then
    Some (set_w_app_dir
            ((λ fi, {| fi_type := fi_type fi; fi_content := fi_content fi;
                       fi_nlink := fi_nlink fi; fi_mtime := 0 |})
               <$> w_app_dir w) w)
  else None.

(** ** The cache object *)

(** Modelled from the spec: the build context is in builder-context.c, not
    among the sources. [builder_context_get_use_rofiles] tells whether
    "hardlink-based checkouts are enabled for this build"; what
    [builder_context_enable_rofiles] and [builder_context_get_rofiles_active]
    answer is read from the environment of a checkout, as is the result of
    [flatpak_mkdir_p]. *)
Record BuilderContext := {
  use_rofiles : bool;
}.

(** [struct BuilderCache]. The [GChecksum] is the sequence of bytes fed to it
    so far; [app_dir], [repo] and the dev/ino cache name parts of the world
    and carry no data of their own. *)
Record BuilderCache := {
  context : BuilderContext;
  checksum : list byte;
  branch : string;
  stage : option string;
  unused_stages : gset string;
  last_parent : option string;
  disabled : bool;
}.

Definition set_checksum (v : list byte) (self : BuilderCache) : BuilderCache :=
  {| context := context self; checksum := v; branch := branch self;
     stage := stage self; unused_stages := unused_stages self;
     last_parent := last_parent self; disabled := disabled self |}.
Definition set_stage (v : option string) (self : BuilderCache) : BuilderCache :=
  {| context := context self; checksum := checksum self; branch := branch self;
     stage := v; unused_stages := unused_stages self;
     last_parent := last_parent self; disabled := disabled self |}.
Definition set_unused_stages (v : gset string) (self : BuilderCache)
  : BuilderCache :=
  {| context := context self; checksum := checksum self; branch := branch self;
     stage := stage self; unused_stages := v;
     last_parent := last_parent self; disabled := disabled self |}.
Definition set_last_parent (v : option string) (self : BuilderCache)
  : BuilderCache :=
  {| context := context self; checksum := checksum self; branch := branch self;
     stage := stage self; unused_stages := unused_stages self;
     last_parent := v; disabled := disabled self |}.
Definition set_disabled (v : bool) (self : BuilderCache) : BuilderCache :=
  {| context := context self; checksum := checksum self; branch := branch self;
     stage := stage self; unused_stages := unused_stages self;
     last_parent := last_parent self; disabled := v |}.

(** [builder_cache_new] with [builder_cache_init]: a fresh SHA-256 state,
    every other field zero. *)
Definition builder_cache_new (ctx : BuilderContext) (branch_name : string)
  : BuilderCache :=
  {| context := ctx; checksum := []; branch := branch_name; stage := None;
     unused_stages := ∅; last_parent := None; disabled := false |}.

Definition builder_cache_get_checksum (self : BuilderCache) : list byte :=
  checksum self.

(** *** Stage refs *)

Definition g_string_append_c (s : string) (c : ascii) : string :=
  s +:+ String c "".

(** [g_string_append_printf (s, "%x", c)] with [c] a [char]. *)
Definition g_string_append_printf_x (s : string) (c : ascii) : string :=
  s +:+ printf_x (char_value c).

(** The loop of [get_ref] over the bytes of [stage], up to the terminator. *)
Fixpoint get_ref_loop (stage : string) (s : string) : string :=
  match stage with
  | EmptyString => s
  | String c stage' =>
      if g_ascii_isalnum c || Ascii.eqb c "-" || Ascii.eqb c "_"
         || Ascii.eqb c "."
      then get_ref_loop stage' (g_string_append_c s c)
      else get_ref_loop stage' (g_string_append_printf_x s c)
  end.

Definition get_ref (self : BuilderCache) (stage : string) : string :=
  get_ref_loop stage (g_string_append_c (branch self) "/").

(** *** Opening *)

Record OpenEnv := {
  oe_mkdir_p : bool;
  oe_repo_create : bool;
  oe_repo_open : bool;
  oe_set_ref_immediate : bool;
  oe_list_refs : bool;
}.

(** [ostree_repo_create] of a repository that is not there yet. *)
Definition ostree_repo_create (io_ok : bool) (w : World) : option World :=
  if io_ok then
    Some {| w_cache_dir_exists := true; w_refs := ∅; w_commits := ∅;
            w_trees := ∅; w_txn := None; w_app_dir := w_app_dir w |}
  else None.

Definition builder_cache_open (e : OpenEnv) (self : BuilderCache) (w : World)
  : bool * BuilderCache * World :=
  let created :=
    if w_cache_dir_exists w then Some w
    else if oe_mkdir_p e then ostree_repo_create (oe_repo_create e) w
         else None in
  match created with
  | None => (false, self, w)
  | Some w1 =>
      if oe_repo_open e then
        (* the ref once named after the branch alone; result not checked *)
        let w2 :=
          match ostree_repo_set_ref_immediate (oe_set_ref_immediate e) w1
                  (branch self) None with
          | Some w' => w'
          | None => w1
          end in
        match ostree_repo_list_refs (oe_list_refs e) w2 (branch self) with
        | Some refs => (true, set_unused_stages refs self, w2)
        | None => (false, self, w2)
        end
      else (false, self, w1)
  end.

Definition builder_cache_get_current (self : BuilderCache) : string :=
  Sha256.sha256_hex (checksum self).

(** *** Checking out *)

Record CheckoutEnv := {
  ck_file_delete : bool;
  ck_mkdir_p : bool;
  ck_enable_rofiles : bool;
  ck_rofiles_active : bool;
  ck_checkout_at : bool;
  ck_now : Z;
  ck_zero_mtime : bool;
}.

(** [g_file_delete (app_dir)] removes an empty directory only; a missing
    directory (error [G_IO_ERROR_NOT_FOUND]) is let through and
    [flatpak_mkdir_p] creates it. A missing and an empty directory are both
    the empty map. The returned world is what the failing call leaves. *)
Definition builder_cache_checkout (e : CheckoutEnv) (self : BuilderCache)
    (commit : string) (delete_dir : bool) (w : World) : bool * World :=
  if delete_dir
     && negb (ck_file_delete e && bool_decide (w_app_dir w = ∅)
              && ck_mkdir_p e)
  then (false, w)
  else if negb (ck_enable_rofiles e) then (false, w)
  else
    let mode := if ck_rofiles_active e then OSTREE_REPO_CHECKOUT_MODE_USER
                else OSTREE_REPO_CHECKOUT_MODE_NONE in
    match ostree_repo_checkout_at (ck_checkout_at e) mode (ck_now e) w commit
    with
    | None => (false, w)
    | Some w1 =>
        match mode with
        | OSTREE_REPO_CHECKOUT_MODE_NONE =>
            match flatpak_zero_mtime (ck_zero_mtime e) w1 with
            | Some w2 => (true, w2)
            | None => (false, w1)
            end
        | OSTREE_REPO_CHECKOUT_MODE_USER => (true, w1)
        end
    end.

Definition builder_cache_has_checkout (self : BuilderCache) : bool :=
  disabled self.

Definition builder_cache_ensure_checkout (e : CheckoutEnv)
    (self : BuilderCache) (w : World) : outcome (BuilderCache * World) :=
  if builder_cache_has_checkout self then Returns (self, w)
  else
    match last_parent self with
    | Some parent =>
        match builder_cache_checkout e self parent true w with
        | (true, w') => Returns (set_disabled true self, w')
        | (false, w') => Aborted w'
        end
    | None => Returns (set_disabled true self, w)
    end.

Definition builder_cache_get_current_ref (self : BuilderCache)
  : option string :=
  get_ref self <$> stage self.

(** *** Lookup *)

Record LookupEnv := {
  le_resolve_rev : bool;
  le_load_variant : bool;
  le_checkout : CheckoutEnv;
}.

(** From the [checkout:] label of [builder_cache_lookup] to its end. *)
Definition lookup_checkout (e : LookupEnv) (self : BuilderCache) (w : World)
  : outcome (bool * BuilderCache * World) :=
  match last_parent self with
  | Some parent =>
      match builder_cache_checkout (le_checkout e) self parent true w with
      | (true, w') => Returns (false, set_disabled true self, w')
      | (false, w') => Aborted w'
      end
  | None => Returns (false, set_disabled true self, w)
  end.

(** What every lookup does first: [self->stage] is set and the stage is
    removed from [unused_stages]. *)
Definition lookup_begin (self : BuilderCache) (stage : string)
  : BuilderCache :=
  let self := set_stage (Some stage) self in
  set_unused_stages (unused_stages self ∖ {[ stage ]}) self.

Definition builder_cache_lookup (e : LookupEnv) (self : BuilderCache)
    (stage : string) (w : World) : outcome (bool * BuilderCache * World) :=
  let self := lookup_begin self stage in
  if disabled self then Returns (false, self, w)
  else
    match builder_cache_get_current_ref self with
    | None => Aborted w
    | Some ref =>
        match ostree_repo_resolve_rev (le_resolve_rev e) w ref true with
        | None => lookup_checkout e self w
        | Some None => lookup_checkout e self w
        | Some (Some commit) =>
            let current := builder_cache_get_current self in
            match ostree_repo_load_variant (le_load_variant e) w commit with
            | None => lookup_checkout e self w
            | Some variant =>
                if String.eqb (c_subject variant) current
                then Returns (true, set_last_parent (Some commit) self, w)
                else lookup_checkout e self w
            end
        end
    end.

(** *** Commit *)

Definition filter_only_non_hardlinked (path : string) (file_info : FileInfo)
  : OstreeRepoCommitFilterResult :=
  if decide (fi_type file_info = G_FILE_TYPE_DIRECTORY)
  then OSTREE_REPO_COMMIT_FILTER_ALLOW
  else if negb (bool_decide (fi_type file_info = G_FILE_TYPE_REGULAR))
  then OSTREE_REPO_COMMIT_FILTER_SKIP
  else if fi_nlink file_info =? 1
  then OSTREE_REPO_COMMIT_FILTER_ALLOW
  else OSTREE_REPO_COMMIT_FILTER_SKIP.

Record CommitEnv := {
  ce_zero_mtime : bool;
  ce_prepare_transaction : bool;
  ce_write_directory : bool;
  ce_write_mtree : option string;
  ce_write_commit : option string;
  ce_write_directory2 : bool;
  ce_write_mtree2 : option string;
  ce_write_commit2 : option string;
  ce_commit_transaction : bool;
  ce_checkout : CheckoutEnv;
  ce_abort_transaction : bool;
}.

(** [builder_cache_commit] from [ostree_mutable_tree_new] to [res = TRUE];
    a [goto out] is a return of [false]. *)
Definition commit_in_transaction (e : CommitEnv) (self : BuilderCache)
    (body : string) (w : World) : outcome (bool * BuilderCache * World) :=
  match ostree_repo_write_directory_to_mtree (ce_write_directory e) w None with
  | None => Returns (false, self, w)
  | Some mtree =>
  match ostree_repo_write_mtree (ce_write_mtree e) w mtree with
  | None => Returns (false, self, w)
  | Some (root, w) =>
  let current := builder_cache_get_current self in
  match ostree_repo_write_commit (ce_write_commit e) w (last_parent self)
          current body root with
  | None => Returns (false, self, w)
  | Some (commit_checksum, w) =>
  match builder_cache_get_current_ref self with
  | None => Aborted w
  | Some ref =>
  let w := ostree_repo_transaction_set_ref w ref commit_checksum in
  (* Commit just new files *)
  match ostree_repo_write_directory_to_mtree (ce_write_directory2 e) w
          (Some filter_only_non_hardlinked) with
  | None => Returns (false, self, w)
  | Some mtree2 =>
  match ostree_repo_write_mtree (ce_write_mtree2 e) w mtree2 with
  | None => Returns (false, self, w)
  | Some (root2, w) =>
  match ostree_repo_write_commit (ce_write_commit2 e) w None current body
          root2 with
  | None => Returns (false, self, w)
  | Some (commit_checksum2, w) =>
  match ostree_repo_commit_transaction (ce_commit_transaction e) w with
  | None => Returns (false, self, w)
  | Some w =>
      (* Check out the just committed cache so we hardlink to the cache *)
      let '(checked_out, w) :=
        if use_rofiles (context self)
        then builder_cache_checkout (ce_checkout e) self commit_checksum2
               false w
        else (true, w) in
      if checked_out
      then Returns (true, set_last_parent (Some commit_checksum) self, w)
      else Returns (false, self, w)
  end end end end end end end end.

Definition builder_cache_commit (e : CommitEnv) (self : BuilderCache)
    (body : string) (w : World) : outcome (bool * BuilderCache * World) :=
  match flatpak_zero_mtime (ce_zero_mtime e) w with
  | None => Returns (false, self, w)
  | Some w =>
      match ostree_repo_prepare_transaction (ce_prepare_transaction e) w with
      | None => Returns (false, self, w)
      | Some w =>
          match commit_in_transaction e self body w with
          | Returns (true, self', w') => Returns (true, self', w')
          | Returns (false, self', w') =>
              (* out: *)
              Returns (false, self',
                       snd (ostree_repo_abort_transaction
                              (ce_abort_transaction e) w'))
          | Aborted w' => Aborted w'
          end
      end
  end.

(** *** Changes *)

Record ChangesEnv := {
  ch_resolve_rev : bool;
  ch_read_commit : bool;
  ch_load_variant : bool;
  ch_diff_dirs : bool;
}.

(** [g_file_get_relative_path (parent, descendant)] where [descendant] is a
    file of a commit tree and [parent] the application directory: the two
    are files of different kinds, for which GLib returns [NULL]. *)
Definition relative_path_of_tree_file (path : string) : option string := None.

(** The result is (added, modified, removed); [None] is the [FALSE] return.
    The added and the modified files are files of the application
    directory, and their paths are relative to it. The removed files are
    files of the tree of [last_parent], and the function asks for their
    paths relative to the application directory as well: the array of the
    removed paths holds one [NULL] for each removed file. *)
Definition builder_cache_get_outstanding_changes (e : ChangesEnv)
    (self : BuilderCache) (w : World)
  : option (list string * list string * list (option string)) :=
  match ostree_repo_read_commit (ch_read_commit e) w (last_parent self) with
  | None => None
  | Some last_root =>
      match
        last_parent self ≫= ostree_repo_load_variant (ch_load_variant e) w
      with
      | None => None
      | Some _ =>
          match ostree_diff_dirs (ch_diff_dirs e) (Some last_root)
                  (tree_entry_of <$> w_app_dir w) with
          | None => None
          | Some (modified, removed, added) =>
              Some (added, modified, relative_path_of_tree_file <$> removed)
          end
      end
  end.

(** The added and the modified paths between the commits of the stages
    [init] and [finish]; [None] is the [NULL] (or [FALSE]) return. *)
Definition builder_cache_get_all_changes (e : ChangesEnv)
    (self : BuilderCache) (w : World) : option (list string) :=
  let init_ref := get_ref self "init" in
  let finish_ref := get_ref self "finish" in
  match ostree_repo_resolve_rev (ch_resolve_rev e) w init_ref false with
  | None => None
  | Some init_commit =>
  match ostree_repo_resolve_rev (ch_resolve_rev e) w finish_ref false with
  | None => None
  | Some finish_commit =>
  match ostree_repo_read_commit (ch_read_commit e) w init_commit with
  | None => None
  | Some init_root =>
  match ostree_repo_read_commit (ch_read_commit e) w finish_commit with
  | None => None
  | Some finish_root =>
  match ostree_diff_dirs (ch_diff_dirs e) (Some init_root) finish_root with
  | None => None
  | Some (modified, removed, added) => Some (added ++ modified)%list
  end end end end end.

(** The added and the modified paths between the last parent and its own
    parent commit. *)
Definition builder_cache_get_changes (e : ChangesEnv) (self : BuilderCache)
    (w : World) : option (list string) :=
  match ostree_repo_read_commit (ch_read_commit e) w (last_parent self) with
  | None => None
  | Some current_root =>
  match
    last_parent self ≫= ostree_repo_load_variant (ch_load_variant e) w
  with
  | None => None
  | Some variant =>
  let parent_root :=
    match c_parent variant with
    | Some parent_commit =>
        match ostree_repo_read_commit (ch_read_commit e) w (Some parent_commit)
        with
        | Some root => Some (Some root)
        | None => None
        end
    | None => Some None
    end in
  match parent_root with
  | None => None
  | Some parent_root =>
  match ostree_diff_dirs (ch_diff_dirs e) parent_root current_root with
  | None => None
  | Some (modified, removed, added) => Some (added ++ modified)%list
  end end end end.

Definition builder_cache_disable_lookups (self : BuilderCache) : BuilderCache :=
  set_disabled true self.

(** *** Garbage collection *)

Record GcEnv := {
  gc_set_ref_immediate : string → bool;
  gc_prune : bool;
}.

(** The loop of [builder_gc] over the keys of [unused_stages], in the order
    the hash table iterates; [false] when a deletion fails, with the world
    the deletions before it left. *)
Fixpoint gc_remove_unused (e : GcEnv) (self : BuilderCache)
    (keys : list string) (w : World) : bool * World :=
  match keys with
  | [] => (true, w)
  | unused_stage :: keys' =>
      let unused_ref := get_ref self unused_stage in
      match ostree_repo_set_ref_immediate (gc_set_ref_immediate e unused_ref)
              w unused_ref None with
      | None => (false, w)
      | Some w' => gc_remove_unused e self keys' w'
      end
  end.

Definition builder_gc (e : GcEnv) (self : BuilderCache) (w : World)
  : bool * World :=
  match gc_remove_unused e self (elements (unused_stages self)) w with
  | (false, w1) => (false, w1)
  | (true, w1) =>
      match ostree_repo_prune (gc_prune e) w1 with
      | Some w2 => (true, w2)
      | None => (false, w1)
      end
  end.

(** *** The checksum accumulator *)

(** [g_checksum_update (checksum, data, length)]. *)
Definition g_checksum_update (cs : list byte) (data : list byte) : list byte :=
  (cs ++ data)%list.

(** The [guchar] of value [z land 0xff]. *)
Definition guchar_of_Z (z : Z) : byte :=
  default x00 (Byte.of_N (Z.to_N (Z.land z 255))).

Definition builder_cache_checksum_str (self : BuilderCache)
    (str : option string) : BuilderCache :=
  match str with
  | Some s =>
      (* strlen (str) + 1 bytes: the terminating zero is included *)
      set_checksum
        (g_checksum_update (checksum self) (list_byte_of_string s ++ [x00]))
        self
  | None => set_checksum (g_checksum_update (checksum self) [x01]) self
  end.

(** [strv] is a [NULL] terminated array of strings, or [NULL]. *)
Definition builder_cache_checksum_strv (self : BuilderCache)
    (strv : option (list string)) : BuilderCache :=
  match strv with
  | Some l =>
      fold_left (λ self s, builder_cache_checksum_str self (Some s)) l
        (set_checksum (g_checksum_update (checksum self) [x01]) self)
  | None => set_checksum (g_checksum_update (checksum self) [x02]) self
  end.

Definition builder_cache_checksum_boolean (self : BuilderCache) (val : bool)
  : BuilderCache :=
  if val then set_checksum (g_checksum_update (checksum self) [x01]) self
  else set_checksum (g_checksum_update (checksum self) [x00]) self.

Definition builder_cache_checksum_uint32 (self : BuilderCache) (val : Z)
  : BuilderCache :=
  let v := [ guchar_of_Z (Z.shiftr val 0); guchar_of_Z (Z.shiftr val 8);
             guchar_of_Z (Z.shiftr val 16); guchar_of_Z (Z.shiftr val 24) ] in
  set_checksum (g_checksum_update (checksum self) v) self.

Definition builder_cache_checksum_data (self : BuilderCache)
    (data : list byte) : BuilderCache :=
  set_checksum (g_checksum_update (checksum self) data) self.

(** One call of the accumulator interface. *)
Inductive Input :=
| InStr (str : option string)
| InStrv (strv : option (list string))
| InBoolean (val : bool)
| InUint32 (val : Z)
| InData (data : list byte).

Definition feed (self : BuilderCache) (i : Input) : BuilderCache :=
  match i with
  | InStr str => builder_cache_checksum_str self str
  | InStrv strv => builder_cache_checksum_strv self strv
  | InBoolean val => builder_cache_checksum_boolean self val
  | InUint32 val => builder_cache_checksum_uint32 self val
  | InData data => builder_cache_checksum_data self data
  end.

Definition feed_all (self : BuilderCache) (inputs : list Input)
  : BuilderCache :=
  fold_left feed inputs self.

(** ** Runs of one cache instance *)

(** A call of the public interface, with the environment it meets. *)
Inductive Op :=
| OpOpen (e : OpenEnv)
| OpLookup (e : LookupEnv) (stage : string)
| OpHasCheckout
| OpEnsureCheckout (e : CheckoutEnv)
| OpCommit (e : CommitEnv) (body : string)
| OpGetOutstandingChanges (e : ChangesEnv)
| OpGetAllChanges (e : ChangesEnv)
| OpGetChanges (e : ChangesEnv)
| OpDisableLookups
| OpGc (e : GcEnv)
| OpChecksum (i : Input).

Inductive Ret :=
| RetVoid
| RetBool (b : bool)
| RetChanges (r : option (list string * list string * list (option string)))
| RetPaths (r : option (list string)).

Definition step (op : Op) (self : BuilderCache) (w : World)
  : outcome (Ret * BuilderCache * World) :=
  match op with
  | OpOpen e =>
      let '(r, self', w') := builder_cache_open e self w in
      Returns (RetBool r, self', w')
  | OpLookup e stage =>
      match builder_cache_lookup e self stage w with
      | Returns (r, self', w') => Returns (RetBool r, self', w')
      | Aborted w' => Aborted w'
      end
  | OpHasCheckout =>
      Returns (RetBool (builder_cache_has_checkout self), self, w)
  | OpEnsureCheckout e =>
      match builder_cache_ensure_checkout e self w with
      | Returns (self', w') => Returns (RetVoid, self', w')
      | Aborted w' => Aborted w'
      end
  | OpCommit e body =>
      match builder_cache_commit e self body w with
      | Returns (r, self', w') => Returns (RetBool r, self', w')
      | Aborted w' => Aborted w'
      end
  | OpGetOutstandingChanges e =>
      Returns (RetChanges (builder_cache_get_outstanding_changes e self w),
               self, w)
  | OpGetAllChanges e =>
      Returns (RetPaths (builder_cache_get_all_changes e self w), self, w)
  | OpGetChanges e =>
      Returns (RetPaths (builder_cache_get_changes e self w), self, w)
  | OpDisableLookups => Returns (RetVoid, builder_cache_disable_lookups self, w)
  | OpGc e =>
      let '(r, w') := builder_gc e self w in Returns (RetBool r, self, w')
  | OpChecksum i => Returns (RetVoid, feed self i, w)
  end.

(** The calls of [ops] in order, with their results. The run ends where the
    process aborts. *)
Fixpoint run (ops : list Op) (self : BuilderCache) (w : World)
  : outcome (list Ret * BuilderCache * World) :=
  match ops with
  | [] => Returns ([], self, w)
  | op :: ops' =>
      match step op self w with
      | Aborted w' => Aborted w'
      | Returns (r, self', w') =>
          match run ops' self' w' with
          | Aborted w'' => Aborted w''
          | Returns (rs, self'', w'') => Returns (r :: rs, self'', w'')
          end
      end
  end.

(** What a run returned, and the cache and the world it left. *)
Definition outcome_results (o : outcome (list Ret * BuilderCache * World))
  : option (list Ret) :=
  match o with Returns (rs, _, _) => Some rs | Aborted _ => None end.
Definition outcome_cache (o : outcome (list Ret * BuilderCache * World))
  : option BuilderCache :=
  match o with Returns (_, self, _) => Some self | Aborted _ => None end.
Definition outcome_world (o : outcome (list Ret * BuilderCache * World))
  : option World :=
  match o with Returns (_, _, w) => Some w | Aborted _ => None end.

(** ** The derivation rule of stage refs, as the specification words it *)

Module Spec.

(** Alphanumerics, [-], [_] and [.] pass through unchanged. *)
Definition passes_through (c : ascii) : bool :=
  g_ascii_isalnum c || Ascii.eqb c "-" || Ascii.eqb c "_" || Ascii.eqb c ".".

(** The hexadecimal encoding of a byte, read as the numeral of its value
    0..255 in lower case and without padding, as in 2b for [+]. *)
Definition hex_of_byte (c : ascii) : string := hex_digits 2 (uchar c) "".

Fixpoint percent_escape (stage_name : string) : string :=
  match stage_name with
  | EmptyString => ""
  | String c rest =>
      (if passes_through c then String c "" else hex_of_byte c)
      +:+ percent_escape rest
  end.

(** branch + "/" + percent_escape (stage_name) *)
Definition stage_ref (branch_name stage_name : string) : string :=
  branch_name +:+ "/" +:+ percent_escape stage_name.

End Spec.

(** The stage names all of whose bytes are ASCII (below 0x80). *)
Fixpoint all_ascii (s : string) : bool :=
  match s with
  | EmptyString => true
  | String c rest => (uchar c <? 128) && all_ascii rest
  end.

(** The names that need no escaping: alphanumerics, [-], [_] and [.]
    only. *)
Fixpoint plain (s : string) : bool :=
  match s with
  | EmptyString => true
  | String c rest => Spec.passes_through c && plain rest
  end.

(** The bytes one accumulator call appends to the hash state. *)
Definition str_bytes (str : option string) : list byte :=
  match str with
  | Some s => (list_byte_of_string s ++ [x00])%list
  | None => [x01]
  end.

Definition encode (i : Input) : list byte :=
  match i with
  | InStr str => str_bytes str
  | InStrv (Some l) => x01 :: concat ((λ s, str_bytes (Some s)) <$> l)
  | InStrv None => [x02]
  | InBoolean true => [x01]
  | InBoolean false => [x00]
  | InUint32 val =>
      [ guchar_of_Z (Z.shiftr val 0); guchar_of_Z (Z.shiftr val 8);
        guchar_of_Z (Z.shiftr val 16); guchar_of_Z (Z.shiftr val 24) ]
  | InData data => data
  end.

(** ** What the statements below speak of *)

(** The two bytes of U+00E9 in UTF-8, a stage name outside ASCII. *)
Definition stage_e_acute : string := String "195" (String "169" "").

(** The repository is the same in two worlds. *)
Definition same_store (w w' : World) : Prop :=
  w_cache_dir_exists w' = w_cache_dir_exists w
  ∧ w_refs w' = w_refs w
  ∧ w_commits w' = w_commits w
  ∧ w_trees w' = w_trees w.

(** The world right after the transaction of a commit has landed: the
    stage ref points to the first commit, both commits and both trees are
    in the repository, no transaction is open, and the mtimes of the
    application directory are zero. *)
Definition committed_world (self : BuilderCache) (body : string)
    (ref root1 id1 root2 id2 : string) (w : World) : World :=
  let dir :=
    (λ fi, {| fi_type := fi_type fi; fi_content := fi_content fi;
              fi_nlink := fi_nlink fi; fi_mtime := 0 |}) <$> w_app_dir w in
  let current := builder_cache_get_current self in
  {| w_cache_dir_exists := w_cache_dir_exists w;
     w_refs := <[ref := id1]> ∅ ∪ w_refs w;
     w_commits :=
       <[id2 := {| c_parent := None; c_subject := current; c_body := body;
                   c_root := root2 |}]>
         (<[id1 := {| c_parent := last_parent self; c_subject := current;
                      c_body := body; c_root := root1 |}]> ∅)
       ∪ w_commits w;
     w_trees :=
       <[root2 := tree_entry_of <$>
                    filter (λ kv, filter_allows
                                    (Some filter_only_non_hardlinked)
                                    kv.1 kv.2 = true) dir]>
         (<[root1 := tree_entry_of <$>
                       filter (λ kv, filter_allows None kv.1 kv.2 = true) dir]>
            ∅)
       ∪ w_trees w;
     w_txn := None;
     w_app_dir := dir |}.


(** A C string holds no zero byte before its terminator. *)
Definition nul_free (s : string) : bool :=
  forallb (λ b, negb (Byte.eqb b x00)) (list_byte_of_string s).

(** The number a sequence of bytes spells, least significant byte first. *)
Definition le_value (bs : list byte) : Z :=
  fold_right (λ b acc, Z.of_N (Byte.to_N b) + 256 * acc) 0 bs.

(** The accumulator calls among the calls of a run, in order. *)
Definition fed (ops : list Op) : list Input :=
  omap (λ op, match op with OpChecksum i => Some i | _ => None end) ops.

(** Whether a call opens the cache, which lists the stages anew. *)
Definition is_open (op : Op) : bool :=
  match op with OpOpen _ => true | _ => false end.

(** The types and contents of the files of the application directory: the
    tree a commit of the whole directory stores. *)
Definition snapshot (w : World) : gmap string TreeEntry :=
  tree_entry_of <$> w_app_dir w.

(** The files [filter_only_non_hardlinked] allows: directories, and regular
    files with a link count of 1, which no checkout from the cache made. *)
Definition new_file (fi : FileInfo) : Prop :=
  fi_type fi = G_FILE_TYPE_DIRECTORY
  ∨ (fi_type fi = G_FILE_TYPE_REGULAR ∧ fi_nlink fi = 1).

(** A file with its mtime set to zero. *)
Definition zeroed (fi : FileInfo) : FileInfo :=
  {| fi_type := fi_type fi; fi_content := fi_content fi;
     fi_nlink := fi_nlink fi; fi_mtime := 0 |}.

(** The checksums the store gives the objects of a commit name them by
    content: the two trees of a commit get the same checksum only when no
    file of the application directory is filtered out, and the two commit
    objects only when they have the same parent and the same tree. *)
Definition content_addressed (e : CommitEnv) (self : BuilderCache) (w : World)
  : Prop :=
  (ce_write_mtree e = ce_write_mtree2 e →
   ∀ p fi, w_app_dir w !! p = Some fi → new_file fi)
  ∧ (ce_write_commit e = ce_write_commit2 e →
     last_parent self = None ∧ ce_write_mtree e = ce_write_mtree2 e).

(** ** Concrete runs *)

Module Examples.

Definition checkout_ok : CheckoutEnv :=
  {| ck_file_delete := true; ck_mkdir_p := true; ck_enable_rofiles := true;
     ck_rofiles_active := true; ck_checkout_at := true; ck_now := 1500000000;
     ck_zero_mtime := true |}.


Definition open_ok : OpenEnv :=
  {| oe_mkdir_p := true; oe_repo_create := true; oe_repo_open := true;
     oe_set_ref_immediate := true; oe_list_refs := true |}.

Definition lookup_ok : LookupEnv :=
  {| le_resolve_rev := true; le_load_variant := true;
     le_checkout := checkout_ok |}.

Definition commit_env (ck : CheckoutEnv) : CommitEnv :=
  {| ce_zero_mtime := true; ce_prepare_transaction := true;
     ce_write_directory := true; ce_write_mtree := Some "tree1";
     ce_write_commit := Some "commit1";
     ce_write_directory2 := true; ce_write_mtree2 := Some "tree2";
     ce_write_commit2 := Some "commit2";
     ce_commit_transaction := true; ce_checkout := ck;
     ce_abort_transaction := true |}.

Definition gc_ok : GcEnv :=
  {| gc_set_ref_immediate := λ _, true; gc_prune := true |}.

(** An existing, empty repository and an application directory with one
    freshly built file. *)
Definition built_world : World :=
  {| w_cache_dir_exists := true; w_refs := ∅; w_commits := ∅; w_trees := ∅;
     w_txn := None;
     w_app_dir :=
       {[ "files/bin/hello" :=
            {| fi_type := G_FILE_TYPE_REGULAR; fi_content := "ELF";
               fi_nlink := 1; fi_mtime := 1499999999 |} ]} |}.

Definition ctx_rofiles : BuilderContext := {| use_rofiles := true |}.
Definition ctx_plain : BuilderContext := {| use_rofiles := false |}.

(** The digest of a cache that was fed nothing. *)
Definition digest_of_nothing : string :=
  "e3b0c44298fc1c149afbf4c8996fb92427ae41e4649b934ca495991b7852b855".

Definition commit0 : Commit :=
  {| c_parent := None; c_subject := digest_of_nothing;
     c_body := "Initialized"; c_root := "tree0" |}.

(** A repository in which an earlier run committed one stage, under the
    ref [ref], before anything was fed to the checksum. *)
Definition world_with_ref (ref : string) : World :=
  {| w_cache_dir_exists := true;
     w_refs := {[ ref := "commit0" ]};
     w_commits := {[ "commit0" := commit0 ]};
     w_trees := {[ "tree0" := ∅ ]};
     w_txn := None;
     w_app_dir := ∅ |}.

(** A cache of the branch [app], opened on an empty repository, that was
    fed one string and then missed the stage [init]. *)
Definition cache_at_init : BuilderCache :=
  {| context := ctx_plain;
     checksum := list_byte_of_string "gcc -O2" ++ [x00];
     branch := "app"; stage := Some "init"; unused_stages := ∅;
     last_parent := None; disabled := true |}.

Definition changes_ok : ChangesEnv :=
  {| ch_resolve_rev := true; ch_read_commit := true; ch_load_variant := true;
     ch_diff_dirs := true |}.

Definition hello : TreeEntry :=
  {| te_type := G_FILE_TYPE_REGULAR; te_content := "ELF" |}.

Definition commit1 : Commit :=
  {| c_parent := None; c_subject := digest_of_nothing;
     c_body := "Initialized"; c_root := "tree1" |}.

(** A repository in which an earlier run committed the stage [init] of the
    branch [app] with one file, before anything was fed to the checksum;
    the application directory is not there yet. *)
Definition cached_world : World :=
  {| w_cache_dir_exists := true;
     w_refs := {[ "app/init" := "commit1" ]};
     w_commits := {[ "commit1" := commit1 ]};
     w_trees := {[ "tree1" := {[ "files/bin/hello" := hello ]} ]};
     w_txn := None;
     w_app_dir := ∅ |}.

(** The file of that commit as a checkout with rofiles active creates it. *)
Definition hello_linked : FileInfo :=
  {| fi_type := G_FILE_TYPE_REGULAR; fi_content := "ELF"; fi_nlink := 2;
     fi_mtime := 0 |}.

Definition checked_out_world : World :=
  set_w_app_dir {[ "files/bin/hello" := hello_linked ]} cached_world.

(** A repository with the stages [init] and [finish] of the branch [app];
    the second commit adds a file to the tree of the first. *)
Definition finished_world : World :=
  {| w_cache_dir_exists := true;
     w_refs := {[ "app/init" := "commit1"; "app/finish" := "commit3" ]};
     w_commits :=
       {[ "commit1" := commit1;
          "commit3" := {| c_parent := Some "commit1";
                          c_subject := digest_of_nothing;
                          c_body := "Finished"; c_root := "tree3" |} ]};
     w_trees :=
       {[ "tree1" := {[ "files/bin/hello" := hello ]};
          "tree3" := {[ "files/bin/hello" := hello;
                        "metadata" := {| te_type := G_FILE_TYPE_REGULAR;
                                         te_content := "[Application]" |} ]} ]};
     w_txn := None;
     w_app_dir := ∅ |}.


(** A fresh cache of the branch [app] after a hit of the stage [init] in
    [cached_world]. *)
Definition cache_after_hit : BuilderCache :=
  set_last_parent (Some "commit1")
    (lookup_begin (builder_cache_new ctx_plain "app") "init").

(** [cache_at_init] in a build that uses rofiles. *)
Definition cache_rofiles_at_init : BuilderCache :=
  {| context := ctx_rofiles;
     checksum := list_byte_of_string "gcc -O2" ++ [x00];
     branch := "app"; stage := Some "init"; unused_stages := ∅;
     last_parent := None; disabled := true |}.

(** The world the commit of [built_world] by [cache_at_init] leaves. *)
Definition committed : World :=
  committed_world cache_at_init "Initialized" "app/init" "tree1" "commit1"
    "tree2" "commit2" built_world.

(** The checksums the store gives the objects of a later commit. *)
Definition commit_env_build : CommitEnv :=
  {| ce_zero_mtime := true; ce_prepare_transaction := true;
     ce_write_directory := true; ce_write_mtree := Some "tree4";
     ce_write_commit := Some "commit4";
     ce_write_directory2 := true; ce_write_mtree2 := Some "tree5";
     ce_write_commit2 := Some "commit5";
     ce_commit_transaction := true; ce_checkout := checkout_ok;
     ce_abort_transaction := true |}.

End Examples.

(** * Properties *)

(** ** SHA-256 test vectors (FIPS 180-4) *)

Example sha256_empty :
  Sha256.sha256_hex [] =
  "e3b0c44298fc1c149afbf4c8996fb92427ae41e4649b934ca495991b7852b855".
Proof. vm_compute. reflexivity. Qed.

Example sha256_abc :
  Sha256.sha256_hex (list_byte_of_string "abc") =
  "ba7816bf8f01cfea414140de5dae2223b00361a396177a9cb410ff61f20015ad".
Proof. vm_compute. reflexivity. Qed.

Example sha256_two_blocks :
  Sha256.sha256_hex
    (list_byte_of_string
       "abcdbcdecdefdefgefghfghighijhijkijkljklmklmnlmnomnopnopq") =
  "248d6a61d20638b8e5c026930c3e6039a33ce45964ff2167f6ecedd419db06c1".
Proof. vm_compute. reflexivity. Qed.

(** ** Strings *)

Lemma append_String (c : ascii) (a b : string) :
  String c a +:+ b = String c (a +:+ b).
Proof. reflexivity. Qed.

Lemma append_empty_l (a : string) : "" +:+ a = a.
Proof. reflexivity. Qed.

Lemma append_assoc (a b c : string) : (a +:+ b) +:+ c = a +:+ (b +:+ c).
Proof.
  induction a as [|x a IH]; [reflexivity|].
  rewrite !append_String. now rewrite IH.
Qed.

Lemma append_empty_r (a : string) : a +:+ "" = a.
Proof.
  induction a as [|x a IH]; [reflexivity|].
  rewrite append_String. now rewrite IH.
Qed.

Lemma strip_prefix_append (p s : string) :
  strip_prefix p (p +:+ s) = Some s.
Proof.
  induction p as [|a p IH]; [reflexivity|].
  rewrite append_String. simpl. now rewrite Ascii.eqb_refl.
Qed.

Lemma strip_prefix_Some (p s rest : string) :
  strip_prefix p s = Some rest → s = p +:+ rest.
Proof.
  revert s; induction p as [|a p IH]; intros s H; simpl in *.
  - injection H as ->. reflexivity.
  - destruct s as [|b s]; [discriminate|].
    destruct (Ascii.eqb a b) eqn:E; [|discriminate].
    apply Ascii.eqb_eq in E; subst b.
    rewrite append_String. f_equal. now apply IH.
Qed.

(** ** Stage refs *)

(** The loop only appends to the string it is given. *)
Lemma get_ref_loop_acc (stage s : string) :
  get_ref_loop stage s = s +:+ get_ref_loop stage "".
Proof.
  revert s; induction stage as [|c stage IH]; intros s; simpl.
  - now rewrite append_empty_r.
  - destruct (g_ascii_isalnum c || Ascii.eqb c "-" || Ascii.eqb c "_"
              || Ascii.eqb c ".").
    + rewrite (IH (g_string_append_c s c)), (IH (g_string_append_c "" c)).
      unfold g_string_append_c. now rewrite append_assoc.
    + rewrite (IH (g_string_append_printf_x s c)),
        (IH (g_string_append_printf_x "" c)).
      unfold g_string_append_printf_x. now rewrite append_assoc.
Qed.

(** Every stage ref lies below the branch. *)
Lemma get_ref_below_branch (self : BuilderCache) (stage : string) :
  get_ref self stage = (branch self +:+ "/") +:+ get_ref_loop stage "".
Proof. unfold get_ref, g_string_append_c. apply get_ref_loop_acc. Qed.

(** Where a byte is ASCII, [%x] of the [char] prints the numeral of the
    byte. *)
Lemma printf_x_ascii (c : ascii) :
  uchar c < 128 → printf_x (char_value c) = Spec.hex_of_byte c.
Proof.
  destruct c as [[] [] [] [] [] [] [] []]; vm_compute;
    solve [reflexivity | intros H; discriminate H].
Qed.

(** Had [char] been unsigned, [%x] would print the numeral of every
    byte. *)
Lemma printf_x_unsigned (c : ascii) : printf_x (uchar c) = Spec.hex_of_byte c.
Proof. destruct c as [[] [] [] [] [] [] [] []]; vm_compute; reflexivity. Qed.

(** On ASCII stage names the code follows the derivation rule. *)
Lemma get_ref_ascii (self : BuilderCache) (stage : string) :
  all_ascii stage = true →
  get_ref self stage = Spec.stage_ref (branch self) stage.
Proof.
  intros H. rewrite get_ref_below_branch. unfold Spec.stage_ref.
  rewrite append_assoc. do 2 f_equal.
  induction stage as [|c stage IH]; simpl in *; [reflexivity|].
  apply andb_prop in H as [Hc Hs]. apply Z.ltb_lt in Hc.
  unfold Spec.passes_through.
  destruct (g_ascii_isalnum c || Ascii.eqb c "-" || Ascii.eqb c "_"
            || Ascii.eqb c ".");
    rewrite get_ref_loop_acc, (IH Hs);
    unfold g_string_append_c, g_string_append_printf_x;
    rewrite ?append_empty_l; [reflexivity | now rewrite printf_x_ascii].
Qed.

(** C5 (code defect): the stage ref is [branch + "/" + percent_escape
    (stage)] with every byte other than an alphanumeric, [-], [_] or [.]
    hex-encoded. The code hands the [char] to [%x]: a byte from 0x80 up is a
    negative [char], is promoted with its sign and comes out as the eight
    digits ffffffXX. For the stage name of the bytes c3 a9 the code derives
    [branch/ffffffc3ffffffa9] where the rule gives [branch/c3a9]. *)
Theorem get_ref_sign_extends_high_bytes (self : BuilderCache) :
  get_ref self stage_e_acute = branch self +:+ "/ffffffc3ffffffa9"
  ∧ Spec.stage_ref (branch self) stage_e_acute = branch self +:+ "/c3a9"
  ∧ get_ref self stage_e_acute ≠ Spec.stage_ref (branch self) stage_e_acute.
Proof.
  assert (Hcode : get_ref self stage_e_acute
                  = branch self +:+ "/ffffffc3ffffffa9").
  { rewrite get_ref_below_branch, append_assoc. reflexivity. }
  assert (Hspec : Spec.stage_ref (branch self) stage_e_acute
                  = branch self +:+ "/c3a9") by reflexivity.
  split; [exact Hcode | split; [exact Hspec |]].
  rewrite Hcode, Hspec. intros H.
  apply (inj (String.append (branch self))) in H. discriminate H.
Qed.

(** C10: for a fixed branch the derivation of stage refs is not injective:
    the stages [+] and [2b] are distinct and derive the same ref, because
    [+] is hex-encoded to the characters 2b. *)
Theorem get_ref_not_injective (self : BuilderCache) :
  "+" ≠ "2b"
  ∧ get_ref self "+" = get_ref self "2b"
  ∧ ∃ stage1 stage2 : string,
      stage1 ≠ stage2 ∧ get_ref self stage1 = get_ref self stage2.
Proof.
  assert (H : get_ref self "+" = get_ref self "2b")
    by (rewrite !get_ref_below_branch; reflexivity).
  split; [discriminate | split; [exact H |]].
  exists "+", "2b". split; [discriminate | exact H].
Qed.

(** ** The checksum accumulator *)

Lemma checksum_str_bytes (self : BuilderCache) (str : option string) :
  builder_cache_checksum_str self str
  = set_checksum (checksum self ++ str_bytes str)%list self.
Proof. destruct str; reflexivity. Qed.

Lemma set_checksum_twice (a b : list byte) (self : BuilderCache) :
  set_checksum b (set_checksum a self) = set_checksum b self.
Proof. reflexivity. Qed.

Lemma set_checksum_same (self : BuilderCache) :
  set_checksum (checksum self) self = self.
Proof. destruct self; reflexivity. Qed.

Lemma checksum_strv_loop (l : list string) (self : BuilderCache) :
  fold_left (λ self s, builder_cache_checksum_str self (Some s)) l self
  = set_checksum
      (checksum self ++ concat ((λ s, str_bytes (Some s)) <$> l))%list self.
Proof.
  revert self; induction l as [|s l IH]; intros self; cbn [fold_left fmap
    list_fmap concat].
  - now rewrite app_nil_r, set_checksum_same.
  - rewrite IH, checksum_str_bytes, set_checksum_twice. simpl checksum.
    now rewrite <- app_assoc.
Qed.

(** An accumulator call appends its encoding to the hash state and leaves
    every other field of the cache alone. *)
Lemma feed_encode (self : BuilderCache) (i : Input) :
  feed self i = set_checksum (checksum self ++ encode i)%list self.
Proof.
  destruct i as [str | [l|] | [] | val | data]; simpl;
    try reflexivity; try apply checksum_str_bytes.
  unfold g_checksum_update.
  rewrite checksum_strv_loop, set_checksum_twice. simpl checksum.
  now rewrite <- app_assoc.
Qed.

Lemma feed_all_encode (inputs : list Input) (self : BuilderCache) :
  feed_all self inputs
  = set_checksum (checksum self ++ concat (encode <$> inputs))%list self.
Proof.
  unfold feed_all.
  revert self; induction inputs as [|i inputs IH]; intros self;
    cbn [fold_left fmap list_fmap concat].
  - now rewrite app_nil_r, set_checksum_same.
  - rewrite IH, feed_encode, set_checksum_twice. simpl checksum.
    now rewrite <- app_assoc.
Qed.

Lemma checksum_feed_all (inputs : list Input) (self : BuilderCache) :
  checksum (feed_all self inputs)
  = (checksum self ++ concat (encode <$> inputs))%list.
Proof. now rewrite feed_all_encode. Qed.



(** C9: feeding the boolean true, feeding a [NULL] string and the framing
    of a string list that is not [NULL] all append the single byte 01. So
    there are different sequences of accumulator calls that leave the same
    state, and the same digest: the one call with true and the one call
    with the [NULL] string. *)
Theorem cross_type_framing_collision :
  (∀ self, builder_cache_checksum_boolean self true
           = builder_cache_checksum_str self None)
  ∧ (∀ self, checksum (builder_cache_checksum_str self None)
             = (checksum self ++ [x01])%list)
  ∧ (∀ self strv,
       checksum (builder_cache_checksum_strv self (Some strv))
       = (checksum self ++ [x01]
            ++ concat ((λ s, str_bytes (Some s)) <$> strv))%list)
  ∧ ∃ calls1 calls2 : list Input,
      calls1 ≠ calls2
      ∧ ∀ self,
          feed_all self calls1 = feed_all self calls2
          ∧ builder_cache_get_current (feed_all self calls1)
            = builder_cache_get_current (feed_all self calls2).
Proof.
  split; [reflexivity | split; [reflexivity | split]].
  - intros self strv.
    change (builder_cache_checksum_strv self (Some strv))
      with (feed self (InStrv (Some strv))).
    now rewrite feed_encode.
  - exists [InBoolean true], [InStr None].
    split; [discriminate | intros self; split; reflexivity].
Qed.

(** ** Lookup *)

Lemma feed_all_fields (self : BuilderCache) (inputs : list Input) :
  branch (feed_all self inputs) = branch self
  ∧ stage (feed_all self inputs) = stage self
  ∧ unused_stages (feed_all self inputs) = unused_stages self
  ∧ last_parent (feed_all self inputs) = last_parent self
  ∧ disabled (feed_all self inputs) = disabled self
  ∧ context (feed_all self inputs) = context self.
Proof. rewrite feed_all_encode. repeat split. Qed.

Lemma get_ref_branch (a b : BuilderCache) (stage : string) :
  branch a = branch b → get_ref a stage = get_ref b stage.
Proof. unfold get_ref. now intros ->. Qed.

(** A stage ref is never the branch name itself. *)
Lemma get_ref_not_branch (self : BuilderCache) (stage : string) :
  get_ref self stage ≠ branch self.
Proof.
  rewrite get_ref_below_branch, append_assoc. intros H.
  rewrite <- (append_empty_r (branch self)) in H at 2.
  apply (inj (String.append (branch self))) in H. discriminate H.
Qed.

(** With lookups disabled the answer is a miss and nothing but the
    bookkeeping of [lookup_begin] happens, whatever the world holds. *)
Lemma lookup_disabled (e : LookupEnv) (self : BuilderCache) (stage : string)
    (w : World) :
  disabled self = true →
  builder_cache_lookup e self stage w
  = Returns (false, lookup_begin self stage, w).
Proof.
  intros H. unfold builder_cache_lookup.
  replace (disabled (lookup_begin self stage)) with true by (now rewrite <- H).
  reflexivity.
Qed.

(** A lookup that returns a miss has disabled the cache. *)
Lemma lookup_miss_disables (e : LookupEnv) (self self' : BuilderCache)
    (stage : string) (w w' : World) :
  builder_cache_lookup e self stage w = Returns (false, self', w') →
  disabled self' = true.
Proof.
  unfold builder_cache_lookup, lookup_checkout.
  destruct (disabled (lookup_begin self stage)) eqn:Hd.
  { intros [= <- <-]. exact Hd. }
  repeat case_match; intros; simplify_eq; reflexivity.
Qed.

(** The hit path of a lookup. *)
Lemma lookup_hit (e : LookupEnv) (self : BuilderCache)
    (stage commit : string) (variant : Commit) (w : World) :
  disabled self = false →
  ostree_repo_resolve_rev (le_resolve_rev e) w (get_ref self stage) true
  = Some (Some commit) →
  ostree_repo_load_variant (le_load_variant e) w commit = Some variant →
  c_subject variant = builder_cache_get_current self →
  builder_cache_lookup e self stage w
  = Returns (true, set_last_parent (Some commit) (lookup_begin self stage), w).
Proof.
  intros Hd Hres Hload Hsubj.
  unfold builder_cache_lookup.
  replace (disabled (lookup_begin self stage)) with false
    by (now rewrite <- Hd).
  change (builder_cache_get_current_ref (lookup_begin self stage))
    with (Some (get_ref self stage)).
  lazy beta iota zeta. rewrite Hres, Hload.
  replace (builder_cache_get_current (lookup_begin self stage))
    with (builder_cache_get_current self) by reflexivity.
  rewrite Hsubj, String.eqb_refl. reflexivity.
Qed.

(** C7: when the lookup resolves the stage ref to a commit whose subject
    is the current digest, it returns a hit and sets the last parent to
    that commit; the world is the same after the call (the application
    directory is untouched and nothing is written to the repository), the
    cache stays enabled and the checksum is not touched. Beside the last
    parent the cache differs only by the bookkeeping every lookup starts
    with. *)
Theorem lookup_hit_frame (e : LookupEnv) (self : BuilderCache)
    (stage commit : string) (variant : Commit) (w : World) :
  disabled self = false →
  ostree_repo_resolve_rev (le_resolve_rev e) w (get_ref self stage) true
  = Some (Some commit) →
  ostree_repo_load_variant (le_load_variant e) w commit = Some variant →
  c_subject variant = builder_cache_get_current self →
  ∃ self',
    builder_cache_lookup e self stage w = Returns (true, self', w)
    ∧ self' = set_last_parent (Some commit) (lookup_begin self stage)
    ∧ last_parent self' = Some commit
    ∧ disabled self' = false
    ∧ checksum self' = checksum self
    ∧ branch self' = branch self
    ∧ context self' = context self.
Proof.
  intros Hd Hres Hload Hsubj.
  exists (set_last_parent (Some commit) (lookup_begin self stage)).
  split; [now apply (lookup_hit e self stage commit variant)|].
  now repeat split.
Qed.

(** ** Opening *)

(** The keys [ostree_repo_list_refs] returns are the names below the
    prefix. *)
Lemma list_refs_spec (io_ok : bool) (w : World) (prefix : string)
    (refs : gset string) :
  ostree_repo_list_refs io_ok w prefix = Some refs →
  ∀ k, k ∈ refs ↔ is_Some (w_refs w !! (prefix +:+ "/" +:+ k)).
Proof.
  unfold ostree_repo_list_refs. destruct (io_ok && w_cache_dir_exists w);
    [|discriminate].
  intros [= <-] k. rewrite elem_of_list_to_set, list_elem_of_omap. split.
  - intros (r & Hr & Hk). apply strip_prefix_Some in Hk as ->.
    rewrite append_assoc in Hr. apply elem_of_elements, elem_of_dom in Hr.
    exact Hr.
  - intros H. exists (prefix +:+ "/" +:+ k). split.
    + now apply elem_of_elements, elem_of_dom.
    + rewrite <- append_assoc. apply strip_prefix_append.
Qed.

(** What a successful [builder_cache_open] leaves. *)
Lemma open_success (e : OpenEnv) (self self' : BuilderCache) (w w' : World) :
  builder_cache_open e self w = (true, self', w') →
  (∃ refs, self' = set_unused_stages refs self
           ∧ ∀ k, k ∈ refs
                  ↔ is_Some (w_refs w' !! (branch self +:+ "/" +:+ k)))
  ∧ w_cache_dir_exists w' = true
  ∧ w_app_dir w' = w_app_dir w
  ∧ (∀ r, w_refs w !! r = None → w_refs w' !! r = None)
  ∧ (w_cache_dir_exists w = true →
     (∀ r, r ≠ branch self → w_refs w' !! r = w_refs w !! r)
     ∧ w_commits w' = w_commits w ∧ w_trees w' = w_trees w
     ∧ w_txn w' = w_txn w).
Proof.
  unfold builder_cache_open, ostree_repo_create.
  set (w2 := λ w1 : World,
         match ostree_repo_set_ref_immediate (oe_set_ref_immediate e) w1
                 (branch self) None with
         | Some w' => w'
         | None => w1
         end).
  assert (Hw2 : ∀ w1,
             w_cache_dir_exists (w2 w1) = w_cache_dir_exists w1
             ∧ w_app_dir (w2 w1) = w_app_dir w1
             ∧ w_commits (w2 w1) = w_commits w1
             ∧ w_trees (w2 w1) = w_trees w1
             ∧ w_txn (w2 w1) = w_txn w1
             ∧ (∀ r, w_refs w1 !! r = None → w_refs (w2 w1) !! r = None)
             ∧ (∀ r, r ≠ branch self →
                     w_refs (w2 w1) !! r = w_refs w1 !! r)).
  { intros w1. unfold w2, ostree_repo_set_ref_immediate.
    destruct (oe_set_ref_immediate e && w_cache_dir_exists w1); simpl.
    - repeat split; try reflexivity.
      + intros r Hr. rewrite lookup_delete. case_decide; [reflexivity|exact Hr].
      + intros r Hr. now rewrite lookup_delete_ne.
    - repeat split; auto. }
  destruct (w_cache_dir_exists w) eqn:Hex.
  - destruct (oe_repo_open e); [|discriminate]. fold (w2 w).
    destruct (ostree_repo_list_refs (oe_list_refs e) (w2 w) (branch self))
      as [refs|] eqn:Hl; [|discriminate].
    intros [= <- <-]. destruct (Hw2 w) as (H1 & H2 & H3 & H4 & H5 & H6 & H7).
    split;
      [exists refs; split; [reflexivity|]; now apply (list_refs_spec _ _ _ _ Hl)
      |].
    rewrite H1, H2. repeat split; auto.
  - destruct (oe_mkdir_p e); [|discriminate].
    destruct (oe_repo_create e); [|discriminate].
    destruct (oe_repo_open e); [|discriminate].
    set (w1 := {| w_cache_dir_exists := true; w_refs := ∅; w_commits := ∅;
                  w_trees := ∅; w_txn := None; w_app_dir := w_app_dir w |}).
    fold (w2 w1).
    destruct (ostree_repo_list_refs (oe_list_refs e) (w2 w1) (branch self))
      as [refs|] eqn:Hl; [|discriminate].
    intros [= <- <-]. destruct (Hw2 w1) as (H1 & H2 & H3 & H4 & H5 & H6 & H7).
    split;
      [exists refs; split; [reflexivity|]; now apply (list_refs_spec _ _ _ _ Hl)
      |].
    rewrite H1, H2.
    split; [reflexivity | split; [reflexivity | split; [|discriminate]]].
    intros r _. apply H6. reflexivity.
Qed.

(** C8: a lookup right after [builder_cache_open], on a repository with no
    ref below the branch, returns a miss and disables the cache; nothing is
    checked out: the last parent is still unset and the world is the one
    the open left. This holds for every stage name, whatever was fed to the
    checksum before the lookup. *)
Theorem first_lookup_on_empty_store (ctx : BuilderContext)
    (branch_name stage : string) (oe : OpenEnv) (le : LookupEnv)
    (inputs : list Input) (self : BuilderCache) (w w1 : World) :
  (∀ k, w_refs w !! (branch_name +:+ "/" +:+ k) = None) →
  builder_cache_open oe (builder_cache_new ctx branch_name) w
  = (true, self, w1) →
  ∃ self',
    builder_cache_lookup le (feed_all self inputs) stage w1
    = Returns (false, self', w1)
    ∧ disabled self' = true
    ∧ last_parent self' = None.
Proof.
  intros Hempty Hopen.
  apply open_success in Hopen as ((refs & -> & _) & _ & _ & Hnone & _).
  set (fed := feed_all _ inputs).
  destruct (feed_all_fields (set_unused_stages refs
              (builder_cache_new ctx branch_name)) inputs)
    as (Hb & _ & _ & Hlp & Hdis & _). fold fed in Hb, Hlp, Hdis.
  exists (set_disabled true (lookup_begin fed stage)).
  split; [|split; [reflexivity | exact Hlp]].
  unfold builder_cache_lookup.
  replace (disabled (lookup_begin fed stage)) with false
    by (symmetry; exact Hdis).
  change (builder_cache_get_current_ref (lookup_begin fed stage))
    with (Some (get_ref fed stage)).
  lazy beta iota zeta.
  assert (Href : w_refs w1 !! get_ref fed stage = None).
  { apply Hnone. rewrite get_ref_below_branch, append_assoc, Hb.
    apply Hempty. }
  assert (Hco : lookup_checkout le (lookup_begin fed stage) w1
                = Returns (false, set_disabled true (lookup_begin fed stage),
                           w1)).
  { unfold lookup_checkout.
    replace (last_parent (lookup_begin fed stage)) with (@None string)
      by (symmetry; exact Hlp).
    reflexivity. }
  unfold ostree_repo_resolve_rev. rewrite Href.
  destruct (le_resolve_rev le && w_cache_dir_exists w1); exact Hco.
Qed.

(** ** Commit *)

(** A checkout writes to the application directory only. *)
Lemma checkout_frame (e : CheckoutEnv) (self : BuilderCache) (commit : string)
    (delete_dir b : bool) (w w' : World) :
  builder_cache_checkout e self commit delete_dir w = (b, w') →
  same_store w w' ∧ w_txn w' = w_txn w.
Proof.
  unfold builder_cache_checkout, ostree_repo_checkout_at, flatpak_zero_mtime,
    same_store.
  repeat case_match; intros; simplify_eq; done.
Qed.


Local Ltac commit_fails ab :=
  left; eexists; split; [reflexivity|];
  unfold same_store; simpl; repeat split; intros; simplify_eq/=;
  try done; try (destruct ab; simplify_eq/=; done).

(** The runs of [builder_cache_commit]: it fails with the repository as it
    was; or it aborts the process, inside the transaction, because no stage
    is set; or the transaction lands and the outcome is that of the
    checkout that follows. *)
Lemma commit_cases (e : CommitEnv) (self : BuilderCache) (body : string)
    (w : World) :
  (∃ w', builder_cache_commit e self body w = Returns (false, self, w')
         ∧ same_store w w'
         ∧ (w_txn w = None → ce_abort_transaction e = true →
            w_txn w' = None))
  ∨ (∃ w', builder_cache_commit e self body w = Aborted w'
           ∧ same_store w w' ∧ stage self = None)
  ∨ (∃ stage_name root1 id1 root2 id2,
       stage self = Some stage_name
       ∧ w_txn w = None
       ∧ w_cache_dir_exists w = true
       ∧ ce_write_commit e = Some id1
       ∧ ce_write_commit2 e = Some id2
       ∧ ce_commit_transaction e = true
       ∧ let cw := committed_world self body (get_ref self stage_name)
                     root1 id1 root2 id2 w in
         builder_cache_commit e self body w
         = if use_rofiles (context self)
           then
             match builder_cache_checkout (ce_checkout e) self id2 false cw
             with
             | (true, w') =>
                 Returns (true, set_last_parent (Some id1) self, w')
             | (false, w') =>
                 Returns (false, self,
                          snd (ostree_repo_abort_transaction
                                 (ce_abort_transaction e) w'))
             end
           else Returns (true, set_last_parent (Some id1) self, cw)).
Proof.
  unfold builder_cache_commit, commit_in_transaction.
  unfold flatpak_zero_mtime, ostree_repo_prepare_transaction,
    ostree_repo_write_directory_to_mtree, ostree_repo_write_mtree,
    ostree_repo_write_commit, ostree_repo_transaction_set_ref,
    ostree_repo_commit_transaction, builder_cache_get_current_ref.
  destruct e as [zm pt wd wm wc wd2 wm2 wc2 ct ck ab]; simpl.
  destruct zm; [|commit_fails ab].
  simpl. destruct (w_txn w) eqn:Ht; [commit_fails ab|].
  destruct pt; [|commit_fails ab].
  destruct (w_cache_dir_exists w) eqn:Hex; [|commit_fails ab].
  simpl.
  destruct wd; [|commit_fails ab].
  destruct wm as [root1|]; [|commit_fails ab].
  simpl. destruct wc as [id1|]; [|commit_fails ab].
  simpl. destruct (stage self) as [stage_name|] eqn:Hst; simpl.
  2:{ right; left. eexists. split; [reflexivity|].
      unfold same_store; simpl. now rewrite Hex. }
  destruct wd2; [|commit_fails ab].
  destruct wm2 as [root2|]; [|commit_fails ab].
  simpl. destruct wc2 as [id2|]; [|commit_fails ab].
  simpl. destruct ct; [|commit_fails ab].
  right; right. exists stage_name, root1, id1, root2, id2.
  repeat (split; [reflexivity|]).
  unfold committed_world. rewrite Hex.
  destruct (use_rofiles (context self)); [|reflexivity].
  destruct (builder_cache_checkout _ _ _ _ _) as [[] w']; reflexivity.
Qed.



(** What a successful commit leaves in the repository: the stage ref
    points to a commit whose subject is the digest. *)
Lemma commit_success (e : CommitEnv) (self self' : BuilderCache)
    (body stage_name : string) (w w' : World) :
  stage self = Some stage_name →
  builder_cache_commit e self body w = Returns (true, self', w') →
  ∃ commit variant,
    self' = set_last_parent (Some commit) self
    ∧ w_cache_dir_exists w' = true
    ∧ w_refs w' !! get_ref self stage_name = Some commit
    ∧ w_commits w' !! commit = Some variant
    ∧ c_subject variant = builder_cache_get_current self.
Proof.
  intros Hst Hc.
  destruct (commit_cases e self body w)
    as [(w1 & H & _) | [(w1 & H & _)
         | (stage_name' & root1 & id1 & root2 & id2 & Hst' & Htx & Hex & Hc1
            & Hc2 & Hct & H)]];
    [congruence | congruence |].
  rewrite Hst in Hst'. injection Hst' as <-.
  set (cw := committed_world self body (get_ref self stage_name)
               root1 id1 root2 id2 w) in H.
  assert (Hs : self' = set_last_parent (Some id1) self ∧ same_store cw w').
  { cbv zeta in H. rewrite H in Hc.
    destruct (use_rofiles (context self)).
    - destruct (builder_cache_checkout _ _ _ _ _) as [[] w2] eqn:Hck;
        [|discriminate].
      apply checkout_frame in Hck as [Hs _]. now injection Hc as <- <-.
    - injection Hc as <- <-. now unfold same_store. }
  destruct Hs as (-> & Hex' & Hrefs & Hcommits & _).
  assert (Hv : ∃ variant, w_commits cw !! id1 = Some variant
                          ∧ c_subject variant = builder_cache_get_current self).
  { unfold cw, committed_world; cbn [w_commits].
    destruct (decide (id2 = id1)) as [->|Hne]; eexists; split;
      try (apply lookup_union_Some_l; rewrite ?lookup_insert_eq;
           rewrite ?lookup_insert_ne by exact Hne;
           rewrite ?lookup_insert_eq; reflexivity);
      reflexivity. }
  destruct Hv as (variant & Hv & Hsubj).
  exists id1, variant. rewrite Hex', Hrefs, Hcommits.
  split; [reflexivity | split; [exact Hex | split; [|split; assumption]]].
  unfold cw, committed_world; cbn [w_refs].
  apply lookup_union_Some_l. apply lookup_insert_eq.
Qed.

(** C1: after [builder_cache_commit] succeeded for the stage [stage_name]
    while the digest was D, a fresh cache of the same branch, opened on the
    repository the commit left and fed inputs that reproduce D, reports a
    hit for [stage_name], when the lookup reads the repository without an
    I/O error: the commit stored D as the subject of the commit the stage
    ref points to, and the lookup compares that subject with the digest. *)
Theorem commit_then_fresh_lookup_hits
    (ce : CommitEnv) (self self' : BuilderCache) (body stage_name : string)
    (w w' : World) (ctx : BuilderContext) (oe : OpenEnv)
    (fresh : BuilderCache) (w2 : World) (inputs : list Input)
    (le : LookupEnv) :
  stage self = Some stage_name →
  builder_cache_commit ce self body w = Returns (true, self', w') →
  builder_cache_open oe (builder_cache_new ctx (branch self)) w'
  = (true, fresh, w2) →
  builder_cache_get_current (feed_all fresh inputs)
  = builder_cache_get_current self →
  le_resolve_rev le = true →
  le_load_variant le = true →
  ∃ commit variant,
    w_refs w' !! get_ref self stage_name = Some commit
    ∧ w_commits w' !! commit = Some variant
    ∧ c_subject variant = builder_cache_get_current self
    ∧ builder_cache_lookup le (feed_all fresh inputs) stage_name w2
      = Returns (true,
                 set_last_parent (Some commit)
                   (lookup_begin (feed_all fresh inputs) stage_name),
                 w2).
Proof.
  intros Hst Hcommit Hopen Hdigest Hres Hload.
  destruct (commit_success ce self self' body stage_name w w' Hst Hcommit)
    as (commit & variant & _ & Hex & Href & Hv & Hsubj).
  exists commit, variant.
  split; [exact Href | split; [exact Hv | split; [exact Hsubj|]]].
  apply open_success in Hopen
    as ((refs & -> & _) & Hex2 & _ & _ & Hkeep).
  destruct (Hkeep Hex) as (Hrefs & Hcommits & _).
  set (opened := set_unused_stages refs
                   (builder_cache_new ctx (branch self))) in *.
  destruct (feed_all_fields opened inputs) as (Hb & _ & _ & _ & Hdis & _).
  assert (Hgr : get_ref (feed_all opened inputs) stage_name
                = get_ref self stage_name)
    by (apply get_ref_branch; exact Hb).
  apply (lookup_hit le _ stage_name commit variant).
  - exact Hdis.
  - unfold ostree_repo_resolve_rev. rewrite Hres, Hex2, Hgr. simpl.
    rewrite Hrefs by (apply (get_ref_not_branch self)). now rewrite Href.
  - unfold ostree_repo_load_variant. rewrite Hload, Hex2, Hcommits. exact Hv.
  - now rewrite Hsubj.
Qed.

(** ** The disabled flag *)

Lemma commit_cache (e : CommitEnv) (self self' : BuilderCache)
    (body : string) (r : bool) (w w' : World) :
  builder_cache_commit e self body w = Returns (r, self', w') →
  self' = self ∨ ∃ id, self' = set_last_parent (Some id) self.
Proof.
  intros H.
  destruct (commit_cases e self body w)
    as [(w1 & H1 & _) | [(w1 & H1 & _)
         | (stage_name & root1 & id1 & root2 & id2 & _ & _ & _ & _ & _ & _
            & H1)]]; rewrite H1 in H.
  - injection H as _ <- _. now left.
  - discriminate H.
  - destruct (use_rofiles (context self)).
    + destruct (builder_cache_checkout _ _ _ _ _) as [[] w2];
        injection H as _ <- _; [right; eauto | now left].
    + injection H as _ <- _. right; eauto.
Qed.

(** No call of the interface clears the flag. *)
Lemma step_disabled (op : Op) (self self' : BuilderCache) (r : Ret)
    (w w' : World) :
  step op self w = Returns (r, self', w') →
  disabled self = true → disabled self' = true.
Proof.
  intros H Hd. destruct op; simpl in H.
  - (* open *)
    unfold builder_cache_open in H.
    repeat case_match; simplify_eq; exact Hd.
  - (* lookup *)
    rewrite lookup_disabled in H by exact Hd. now simplify_eq.
  - now simplify_eq.
  - (* ensure checkout *)
    unfold builder_cache_ensure_checkout, builder_cache_has_checkout in H.
    rewrite Hd in H. now simplify_eq.
  - (* commit *)
    destruct (builder_cache_commit e self body w) as [[[b s] w1]|] eqn:Hc;
      [|discriminate].
    simplify_eq. apply commit_cache in Hc as [-> | [id ->]]; exact Hd.
  - now simplify_eq.
  - now simplify_eq.
  - now simplify_eq.
  - now simplify_eq.
  - destruct (builder_gc e self w). now simplify_eq.
  - simplify_eq. rewrite feed_encode. exact Hd.
Qed.

Lemma run_disabled (ops : list Op) (self self' : BuilderCache)
    (rs : list Ret) (w w' : World) :
  run ops self w = Returns (rs, self', w') →
  disabled self = true →
  disabled self' = true
  ∧ ∀ i e stage, ops !! i = Some (OpLookup e stage) →
                 rs !! i = Some (RetBool false).
Proof.
  revert self rs w; induction ops as [|op ops IH]; intros self rs w H Hd;
    simpl in H.
  - simplify_eq. split; [exact Hd | intros i e stage Hi; discriminate Hi].
  - destruct (step op self w) as [[[r s1] w1]|] eqn:Hs; [|discriminate].
    destruct (run ops s1 w1) as [[[rs1 s2] w2]|] eqn:Hr; [|discriminate].
    simplify_eq.
    destruct (IH _ _ _ Hr (step_disabled _ _ _ _ _ _ Hs Hd)) as [Hd' Hl].
    split; [exact Hd'|]. intros [|i] e stage Hi; simpl in *.
    + simplify_eq. simpl in Hs.
      rewrite lookup_disabled in Hs by exact Hd. now simplify_eq.
    + eauto.
Qed.

(** C2: the disabled flag is sticky. Whatever calls are run, and whatever
    they meet, a flag that is set stays set. So after a lookup that returned
    a miss, every lookup among the calls that follow returns a miss, and
    so does any further lookup, in any world: it returns before it reads
    the repository, also where the stage ref points to a commit whose
    subject is the current digest. *)
Theorem disabled_is_sticky (ops : list Op) (self self' : BuilderCache)
    (rs : list Ret) (w w' : World) :
  run ops self w = Returns (rs, self', w') →
  (disabled self = true → disabled self' = true)
  ∧ ∀ e0 self0 stage0 w0,
      builder_cache_lookup e0 self0 stage0 w0 = Returns (false, self, w) →
      disabled self = true
      ∧ disabled self' = true
      ∧ (∀ i e stage, ops !! i = Some (OpLookup e stage) →
                      rs !! i = Some (RetBool false))
      ∧ ∀ e stage w_any,
          builder_cache_lookup e self' stage w_any
          = Returns (false, lookup_begin self' stage, w_any).
Proof.
  intros Hrun. split.
  - intros Hd. now apply (run_disabled ops self self' rs w w').
  - intros e0 self0 stage0 w0 Hmiss.
    pose proof (lookup_miss_disables _ _ _ _ _ _ Hmiss) as Hd.
    destruct (run_disabled ops self self' rs w w' Hrun Hd) as [Hd' Hl].
    split; [exact Hd | split; [exact Hd' | split; [exact Hl|]]].
    intros e stage w_any. now apply lookup_disabled.
Qed.

(** ** Garbage collection *)

Lemma gc_remove_unused_refs (e : GcEnv) (self : BuilderCache)
    (keys : list string) (w w' : World) :
  gc_remove_unused e self keys w = (true, w') →
  (∀ k, k ∈ keys → w_refs w' !! get_ref self k = None)
  ∧ (∀ r, (∀ k, k ∈ keys → get_ref self k ≠ r) →
          w_refs w' !! r = w_refs w !! r).
Proof.
  revert w; induction keys as [|k keys IH]; intros w H; simpl in H.
  - simplify_eq. split; [intros k Hk; inversion Hk | reflexivity].
  - unfold ostree_repo_set_ref_immediate in H.
    destruct (gc_set_ref_immediate e (get_ref self k) && w_cache_dir_exists w);
      [|discriminate].
    apply IH in H as [Hdel Hkeep]. cbn [w_refs set_w_refs] in Hkeep. split.
    + intros k' [->|Hk']%elem_of_cons; [|now apply Hdel].
      destruct (decide (Exists (λ k2, get_ref self k2 = get_ref self k) keys))
        as [(k2 & Hin & Heq)%Exists_exists|Hno].
      * rewrite <- Heq. now apply Hdel.
      * rewrite Hkeep
          by (intros k2 Hin Heq; apply Hno, Exists_exists; eauto).
        apply lookup_delete_eq.
    + intros r Hr. rewrite Hkeep.
      * apply lookup_delete_ne. apply Hr. now left.
      * intros k2 Hin. apply Hr. now right.
Qed.

(** What a successful [builder_gc] does to the refs: the ref derived from
    every key left in [unused_stages] is gone, every other ref stays. *)
Lemma gc_refs (e : GcEnv) (self : BuilderCache) (w w' : World) :
  builder_gc e self w = (true, w') →
  (∀ k, k ∈ unused_stages self → w_refs w' !! get_ref self k = None)
  ∧ (∀ r, (∀ k, k ∈ unused_stages self → get_ref self k ≠ r) →
          w_refs w' !! r = w_refs w !! r).
Proof.
  unfold builder_gc.
  destruct (gc_remove_unused e self (elements (unused_stages self)) w)
    as [[] w1] eqn:Hloop; [|discriminate].
  unfold ostree_repo_prune. destruct (gc_prune e); [|discriminate].
  intros [= <-]. cbn [w_refs set_w_trees set_w_commits].
  apply gc_remove_unused_refs in Hloop as [Hdel Hkeep]. split.
  - intros k Hk. apply Hdel. now apply elem_of_elements.
  - intros r Hr. apply Hkeep. intros k Hk. apply Hr.
    now apply elem_of_elements.
Qed.

(** A plain name is its own escape. *)
Lemma get_ref_plain (self : BuilderCache) (stage : string) :
  plain stage = true → get_ref self stage = branch self +:+ "/" +:+ stage.
Proof.
  intros H. rewrite get_ref_below_branch, append_assoc. do 2 f_equal.
  induction stage as [|c stage IH]; simpl in *; [reflexivity|].
  apply andb_prop in H as [Hc Hs]. unfold Spec.passes_through in Hc.
  rewrite Hc, get_ref_loop_acc, (IH Hs). reflexivity.
Qed.

(** Where it works: with plain names only, the ref of every stage left in
    [unused_stages] is deleted, and the ref of a stage that is not in the
    set, as after a lookup of it, is kept. *)
Lemma gc_plain_stages (e : GcEnv) (self : BuilderCache) (stage : string)
    (w w' : World) :
  builder_gc e self w = (true, w') →
  (∀ k, k ∈ unused_stages self → plain k = true) →
  plain stage = true →
  (stage ∈ unused_stages self → w_refs w' !! get_ref self stage = None)
  ∧ (stage ∉ unused_stages self →
     w_refs w' !! get_ref self stage = w_refs w !! get_ref self stage).
Proof.
  intros Hgc Hplain Hs. apply gc_refs in Hgc as [Hdel Hkeep]. split.
  - apply Hdel.
  - intros Hnot. apply Hkeep. intros k Hk Heq.
    rewrite !get_ref_plain in Heq by auto.
    apply (inj (String.append (branch self))) in Heq.
    apply (inj (String.append "/")) in Heq. now subst.
Qed.

(** A lookup takes the stage name out of [unused_stages], and nothing
    else. *)
Lemma lookup_unused_stages (e : LookupEnv) (self self' : BuilderCache)
    (stage : string) (r : bool) (w w' : World) :
  builder_cache_lookup e self stage w = Returns (r, self', w') →
  unused_stages self' = unused_stages self ∖ {[ stage ]}.
Proof.
  unfold builder_cache_lookup, lookup_checkout.
  repeat case_match; intros; simplify_eq; reflexivity.
Qed.

(** The escape of any name is plain: hexadecimal digits pass through. *)
Lemma plain_append (a b : string) :
  plain a = true → plain b = true → plain (a +:+ b) = true.
Proof.
  intros Ha Hb. induction a as [|c a IH]; [exact Hb|].
  rewrite append_String. simpl in *.
  apply andb_prop in Ha as [Hc Ha]. now rewrite Hc, IH.
Qed.

Lemma printf_x_plain (c : ascii) : plain (printf_x (char_value c)) = true.
Proof. destruct c as [[] [] [] [] [] [] [] []]; vm_compute; reflexivity. Qed.

Lemma escape_plain (stage : string) : plain (get_ref_loop stage "") = true.
Proof.
  induction stage as [|c stage IH]; [reflexivity|]. simpl.
  destruct (g_ascii_isalnum c || Ascii.eqb c "-" || Ascii.eqb c "_"
            || Ascii.eqb c ".") eqn:Hc;
    rewrite get_ref_loop_acc; apply plain_append; try exact IH.
  - unfold g_string_append_c. rewrite append_empty_l. simpl.
    unfold Spec.passes_through. now rewrite Hc.
  - unfold g_string_append_printf_x. rewrite append_empty_l.
    apply printf_x_plain.
Qed.

(** A lookup leaves the repository and the branch as they are. *)
Lemma lookup_store (e : LookupEnv) (self self' : BuilderCache)
    (stage : string) (r : bool) (w w' : World) :
  builder_cache_lookup e self stage w = Returns (r, self', w') →
  same_store w w' ∧ branch self' = branch self.
Proof.
  unfold builder_cache_lookup, lookup_checkout. intros H.
  repeat case_match; simplify_eq;
    try (split; [unfold same_store; done | done]);
    match goal with
    | Hc : builder_cache_checkout _ _ _ _ _ = _ |- _ =>
        apply checkout_frame in Hc as [Hs _]; split; [exact Hs | done]
    end.
Qed.

(** The defect in general: a stage whose name is not its own escape and
    whose ref is in the repository when the cache is opened loses the ref
    to a successful [builder_gc], although it was looked up. *)
Lemma gc_deletes_escaped_stage (ctx : BuilderContext) (branch_name : string)
    (oe : OpenEnv) (le : LookupEnv) (ge : GcEnv) (stage : string) (r : bool)
    (opened self : BuilderCache) (w w0 w1 w2 : World) :
  builder_cache_open oe (builder_cache_new ctx branch_name) w
  = (true, opened, w0) →
  is_Some (w_refs w0 !! get_ref opened stage) →
  get_ref_loop stage "" ≠ stage →
  builder_cache_lookup le opened stage w0 = Returns (r, self, w1) →
  builder_gc ge self w1 = (true, w2) →
  w_refs w2 !! get_ref opened stage = None.
Proof.
  intros Hopen Href Hesc Hlookup Hgc.
  apply open_success in Hopen as ((refs & -> & Hkeys) & _).
  pose proof (lookup_unused_stages _ _ _ _ _ _ _ Hlookup) as Hunused.
  apply lookup_store in Hlookup as [_ Hb].
  apply gc_refs in Hgc as [Hdel _].
  set (opened := set_unused_stages refs (builder_cache_new ctx branch_name))
    in *.
  set (k := get_ref_loop stage "") in *.
  assert (Hk : get_ref opened stage = get_ref self k).
  { rewrite (get_ref_plain self k) by apply escape_plain.
    rewrite get_ref_below_branch, append_assoc, Hb. reflexivity. }
  rewrite Hk. apply Hdel. rewrite Hunused.
  apply elem_of_difference. split.
  - apply Hkeys. rewrite get_ref_below_branch, append_assoc in Href.
    exact Href.
  - intros ->%elem_of_singleton. now apply Hesc.
Qed.

(** C4 (code defect): a stage ref whose stage was looked up during the run
    is to survive [builder_gc]. The keys of [unused_stages] are the escaped
    names [ostree_repo_list_refs] returns; the lookup removes the stage
    name as given. For the stage [build-gtk+] of the branch [app], whose ref
    is [app/build-gtk2b], the key [build-gtk2b] stays in the set when the
    stage is looked up, and the gc that follows deletes the ref, here after
    a lookup that was a hit. *)
Theorem gc_deletes_ref_of_looked_up_stage :
  let fresh := builder_cache_new Examples.ctx_plain "app" in
  let o :=
    run [ OpOpen Examples.open_ok; OpLookup Examples.lookup_ok "build-gtk+";
          OpGc Examples.gc_ok ]
        fresh (Examples.world_with_ref "app/build-gtk2b") in
  get_ref fresh "build-gtk+" = "app/build-gtk2b"
  ∧ map_to_list (w_refs (Examples.world_with_ref "app/build-gtk2b"))
    = [("app/build-gtk2b", "commit0")]
  ∧ outcome_results o = Some [RetBool true; RetBool true; RetBool true]
  ∧ (λ self, elements (unused_stages self)) <$> outcome_cache o
    = Some ["build-gtk2b"]
  ∧ (λ w', map_to_list (w_refs w')) <$> outcome_world o = Some [].
Proof. intros fresh o. repeat split; vm_compute; reflexivity. Qed.

(** ** Instances of the theorems above *)

(** C1 at a run: the stage [init] of the branch [app] is committed after
    one string was fed, and a fresh cache fed the same string hits it. *)
Lemma commit_then_fresh_lookup_hits_witness :
  ∃ commit variant,
    w_refs (committed_world Examples.cache_at_init "Initialized" "app/init"
              "tree1" "commit1" "tree2" "commit2" Examples.built_world)
      !! get_ref Examples.cache_at_init "init" = Some commit
    ∧ w_commits (committed_world Examples.cache_at_init "Initialized"
                   "app/init" "tree1" "commit1" "tree2" "commit2"
                   Examples.built_world) !! commit = Some variant
    ∧ c_subject variant = builder_cache_get_current Examples.cache_at_init
    ∧ builder_cache_lookup Examples.lookup_ok
        (feed_all (set_unused_stages {[ "init" ]}
                     (builder_cache_new Examples.ctx_plain "app"))
           [InStr (Some "gcc -O2")])
        "init"
        (committed_world Examples.cache_at_init "Initialized" "app/init"
           "tree1" "commit1" "tree2" "commit2" Examples.built_world)
      = Returns (true,
                 set_last_parent (Some commit)
                   (lookup_begin
                      (feed_all (set_unused_stages {[ "init" ]}
                                   (builder_cache_new Examples.ctx_plain "app"))
                         [InStr (Some "gcc -O2")])
                      "init"),
                 committed_world Examples.cache_at_init "Initialized"
                   "app/init" "tree1" "commit1" "tree2" "commit2"
                   Examples.built_world).
Proof.
  apply (commit_then_fresh_lookup_hits
           (Examples.commit_env Examples.checkout_ok) Examples.cache_at_init
           (set_last_parent (Some "commit1") Examples.cache_at_init)
           "Initialized" "init" Examples.built_world _
           Examples.ctx_plain Examples.open_ok);
    vm_compute; reflexivity.
Defined.

(** C2 at a run: after the miss of [init], the lookup of [build] and any
    lookup after it. *)
Lemma disabled_is_sticky_witness :
  disabled Examples.cache_at_init = true
  ∧ disabled (lookup_begin Examples.cache_at_init "build") = true
  ∧ (∀ i e stage,
       [OpLookup Examples.lookup_ok "build"] !! i = Some (OpLookup e stage) →
       [RetBool false] !! i = Some (RetBool false))
  ∧ ∀ e stage w_any,
      builder_cache_lookup e (lookup_begin Examples.cache_at_init "build")
        stage w_any
      = Returns (false,
                 lookup_begin (lookup_begin Examples.cache_at_init "build")
                   stage,
                 w_any).
Proof.
  refine (proj2 (disabled_is_sticky [OpLookup Examples.lookup_ok "build"]
                   Examples.cache_at_init
                   (lookup_begin Examples.cache_at_init "build")
                   [RetBool false]
                   Examples.built_world Examples.built_world _)
            Examples.lookup_ok
            (feed_all (set_unused_stages ∅
                         (builder_cache_new Examples.ctx_plain "app"))
               [InStr (Some "gcc -O2")])
            "init" Examples.built_world _);
    vm_compute; reflexivity.
Defined.

(** C7 at a run: the first lookup of a cache that was fed nothing, on a
    repository whose ref [app/init] carries the digest of nothing. *)
Lemma lookup_hit_frame_witness :
  ∃ self',
    builder_cache_lookup Examples.lookup_ok
      (set_unused_stages {[ "init" ]}
         (builder_cache_new Examples.ctx_plain "app"))
      "init" (Examples.world_with_ref "app/init")
    = Returns (true, self', Examples.world_with_ref "app/init")
    ∧ self' = set_last_parent (Some "commit0")
                (lookup_begin
                   (set_unused_stages {[ "init" ]}
                      (builder_cache_new Examples.ctx_plain "app")) "init")
    ∧ last_parent self' = Some "commit0"
    ∧ disabled self' = false
    ∧ checksum self' = []
    ∧ branch self' = "app"
    ∧ context self' = Examples.ctx_plain.
Proof.
  apply (lookup_hit_frame Examples.lookup_ok
           (set_unused_stages {[ "init" ]}
              (builder_cache_new Examples.ctx_plain "app"))
           "init" "commit0" Examples.commit0
           (Examples.world_with_ref "app/init"));
    vm_compute; reflexivity.
Defined.

(** C8 at a run: the first lookup on an empty repository. *)
Lemma first_lookup_on_empty_store_witness :
  ∃ self',
    builder_cache_lookup Examples.lookup_ok
      (feed_all (set_unused_stages ∅
                   (builder_cache_new Examples.ctx_plain "app"))
         [InStr (Some "gcc -O2")])
      "init" Examples.built_world
    = Returns (false, self', Examples.built_world)
    ∧ disabled self' = true
    ∧ last_parent self' = None.
Proof.
  apply (first_lookup_on_empty_store Examples.ctx_plain "app" "init"
           Examples.open_ok Examples.lookup_ok [InStr (Some "gcc -O2")]
           (set_unused_stages ∅ (builder_cache_new Examples.ctx_plain "app"))
           Examples.built_world Examples.built_world).
  - intros k. apply lookup_empty.
  - vm_compute. reflexivity.
Defined.

(** * Further properties

    What the functions of builder-cache.c guarantee beside the statements
    above, each read off the code. The instances are stated over the worlds of
    [Examples]. *)

Import Examples.

(** ** Stage refs *)

Lemma append_inj_r (p a b : string) : p +:+ a = p +:+ b → a = b.
Proof.
  induction p as [|c p IH]; [by rewrite !append_empty_l|].
  rewrite !append_String. intros H. injection H as H. by apply IH.
Qed.

(** X1: every ref [get_ref] derives is the branch, a [/] and a token of
    alphanumerics, [-], [_] and [.] only, whatever the bytes of the stage
    name; and the token, taken as a stage name, derives the same ref: the
    escaping is idempotent. *)
Theorem get_ref_token_is_plain (self : BuilderCache) (stage_name : string) :
  ∃ token,
    get_ref self stage_name = branch self +:+ "/" +:+ token
    ∧ plain token = true
    ∧ get_ref self token = get_ref self stage_name.
Proof.
  exists (get_ref_loop stage_name "").
  rewrite get_ref_below_branch, append_assoc.
  split; [reflexivity|]. split; [apply escape_plain|].
  by rewrite (get_ref_plain self _ (escape_plain _)).
Qed.

(** X2: on stage names of alphanumerics, [-], [_] and [.] only, [get_ref]
    appends the name unchanged to the branch and a [/], and two such names
    derive the same ref only when they are the same name. *)
Theorem get_ref_injective_on_plain (self : BuilderCache) (a b : string) :
  plain a = true → plain b = true →
  get_ref self a = branch self +:+ "/" +:+ a
  ∧ (get_ref self a = get_ref self b ↔ a = b).
Proof.
  intros Ha Hb. rewrite (get_ref_plain self a Ha), (get_ref_plain self b Hb).
  split; [reflexivity|]. split; [|by intros ->].
  intros H. apply append_inj_r in H. by apply append_inj_r in H.
Qed.

(** X2 at the stages [init] and [finish] of the branch [app]. *)
Lemma get_ref_injective_on_plain_witness :
  get_ref (builder_cache_new Examples.ctx_plain "app") "init"
  = "app" +:+ "/" +:+ "init"
  ∧ (get_ref (builder_cache_new Examples.ctx_plain "app") "init"
     = get_ref (builder_cache_new Examples.ctx_plain "app") "finish"
     ↔ "init" = "finish").
Proof.
  apply (get_ref_injective_on_plain
           (builder_cache_new Examples.ctx_plain "app") "init" "finish");
    reflexivity.
Defined.

Lemma plain_app_slash (x y : string) : plain (x +:+ String "/" y) = false.
Proof.
  induction x as [|c x IH]; [by rewrite append_empty_l|].
  rewrite append_String. cbn [plain]. rewrite IH. apply andb_false_r.
Qed.

Lemma branch_token_split (b1 b2 t1 t2 : string) :
  plain t1 = true → plain t2 = true →
  b1 +:+ String "/" t1 = b2 +:+ String "/" t2 → b1 = b2 ∧ t1 = t2.
Proof.
  intros H1 H2. revert b2.
  induction b1 as [|c b1 IH]; intros [|d b2];
    rewrite ?append_empty_l, ?append_String; intros H.
  - by injection H as ->.
  - injection H as _ ->. by rewrite plain_app_slash in H1.
  - injection H as _ <-. by rewrite plain_app_slash in H2.
  - injection H as -> H. by destruct (IH _ H) as [-> ->].
Qed.

(** X24: two caches derive the same ref only when they have the same
    branch, and then only for stage names with the same escaped token: no
    stage ref of one branch is a stage ref of another, also when one branch
    name is a prefix of the other. *)
Theorem stage_refs_of_branches_are_disjoint (a b : BuilderCache)
    (stage1 stage2 : string) :
  get_ref a stage1 = get_ref b stage2
  ↔ branch a = branch b ∧ get_ref_loop stage1 "" = get_ref_loop stage2 "".
Proof.
  rewrite !get_ref_below_branch, !append_assoc, !append_String,
    !append_empty_l.
  split; [|by intros [-> ->]].
  apply branch_token_split; apply escape_plain.
Qed.

(** ** The checksum accumulator *)

Lemma guchar_value (z : Z) : Z.of_N (Byte.to_N (guchar_of_Z z)) = z mod 256.
Proof.
  unfold guchar_of_Z.
  change 255 with (Z.ones 8). rewrite Z.land_ones by lia.
  change (2 ^ 8) with 256.
  pose proof (Z.mod_pos_bound z 256 ltac:(lia)) as Hb.
  pose proof (Byte.to_of_N_option_map (Z.to_N (z mod 256))) as H.
  destruct (Byte.of_N (Z.to_N (z mod 256))) as [b|] eqn:Hof; simpl in *.
  - destruct (N.leb_spec (Z.to_N (z mod 256)) 255); [|lia].
    injection H as ->. lia.
  - destruct (N.leb_spec (Z.to_N (z mod 256)) 255); [done|lia].
Qed.

Lemma uint32_bytes_value (val : Z) :
  le_value (encode (InUint32 val)) = val mod 2 ^ 32.
Proof.
  unfold le_value; cbn [encode fold_right]. rewrite !guchar_value.
  rewrite !Z.shiftr_div_pow2 by lia.
  change (2 ^ 0) with 1. change (2 ^ 8) with 256.
  change (2 ^ 16) with 65536. change (2 ^ 24) with 16777216.
  change (2 ^ 32) with 4294967296.
  Z.div_mod_to_equations. lia.
Qed.

(** X3: [builder_cache_checksum_uint32] appends exactly four bytes to the
    hash state, which spell the value (as a [guint32], modulo 2^32) least
    significant byte first; so two values that leave the same state are the
    same [guint32]. *)
Theorem checksum_uint32_little_endian (self : BuilderCache) (val : Z) :
  (∃ v,
     checksum (builder_cache_checksum_uint32 self val)
     = (checksum self ++ v)%list
     ∧ length v = 4%nat
     ∧ le_value v = val mod 2 ^ 32)
  ∧ ∀ other,
      checksum (builder_cache_checksum_uint32 self val)
      = checksum (builder_cache_checksum_uint32 self other) →
      val mod 2 ^ 32 = other mod 2 ^ 32.
Proof.
  split.
  - exists (encode (InUint32 val)). split; [done|]. split; [done|].
    apply uint32_bytes_value.
  - intros other H.
    change (checksum self ++ encode (InUint32 val)
            = checksum self ++ encode (InUint32 other))%list in H.
    apply app_inv_head in H.
    by rewrite <- (uint32_bytes_value val), <- (uint32_bytes_value other), H.
Qed.

Lemma framed_bytes_inj (a b r1 r2 : list byte) :
  forallb (λ b, negb (Byte.eqb b x00)) a = true →
  forallb (λ b, negb (Byte.eqb b x00)) b = true →
  (a ++ x00 :: r1 = b ++ x00 :: r2)%list → a = b ∧ r1 = r2.
Proof.
  revert b. induction a as [|x a IH]; intros [|y b] Ha Hb H; simpl in *.
  - by injection H as ->.
  - injection H as <- _. by apply andb_true_iff in Hb as [? _].
  - injection H as -> _. by apply andb_true_iff in Ha as [? _].
  - injection H as -> H.
    apply andb_true_iff in Ha as [_ Ha]. apply andb_true_iff in Hb as [_ Hb].
    destruct (IH b Ha Hb H) as [-> ->]. done.
Qed.

Lemma list_byte_of_string_inj (a b : string) :
  list_byte_of_string a = list_byte_of_string b → a = b.
Proof.
  intros H. rewrite <- (string_of_list_byte_of_string a),
              <- (string_of_list_byte_of_string b). by rewrite H.
Qed.

Lemma framed_strings_inj (l1 l2 : list string) :
  forallb nul_free l1 = true → forallb nul_free l2 = true →
  concat ((λ s, str_bytes (Some s)) <$> l1)
  = concat ((λ s, str_bytes (Some s)) <$> l2) →
  l1 = l2.
Proof.
  revert l2. induction l1 as [|a l1 IH]; intros [|b l2] H1 H2 H.
  - done.
  - exfalso. simpl in H. destruct (list_byte_of_string b); done.
  - exfalso. simpl in H. destruct (list_byte_of_string a); done.
  - cbn [forallb] in H1, H2.
    apply andb_true_iff in H1 as [Ha H1]. apply andb_true_iff in H2 as [Hb H2].
    cbn [fmap list_fmap concat str_bytes] in H.
    rewrite <- !app_assoc in H. cbn [app] in H.
    apply framed_bytes_inj in H as [Hab H]; [|done..].
    apply list_byte_of_string_inj in Hab as ->.
    f_equal. by apply IH.
Qed.

(** X4: the terminating zero [builder_cache_checksum_str] includes makes
    the framing of string lists unambiguous: from the same state, two
    non-[NULL] lists of C strings leave the same hash state only when they
    are the same list. *)
Theorem checksum_strv_injective (self : BuilderCache) (l1 l2 : list string) :
  forallb nul_free l1 = true → forallb nul_free l2 = true →
  (checksum (builder_cache_checksum_strv self (Some l1))
   = checksum (builder_cache_checksum_strv self (Some l2))
   ↔ l1 = l2).
Proof.
  intros H1 H2. split; [|by intros ->].
  unfold builder_cache_checksum_strv. rewrite !checksum_strv_loop.
  cbn [checksum set_checksum]. unfold g_checksum_update.
  intros H. apply app_inv_head in H. by apply framed_strings_inj.
Qed.

(** X4 at two lists with the same concatenation. *)
Lemma checksum_strv_injective_witness :
  checksum (builder_cache_checksum_strv
              (builder_cache_new Examples.ctx_plain "app") (Some ["ab"; "c"]))
  = checksum (builder_cache_checksum_strv
                (builder_cache_new Examples.ctx_plain "app")
                (Some ["a"; "bc"]))
  ↔ ["ab"; "c"] = ["a"; "bc"].
Proof.
  apply (checksum_strv_injective
           (builder_cache_new Examples.ctx_plain "app") ["ab"; "c"]
           ["a"; "bc"]); reflexivity.
Defined.

(** X25: feeding [NULL] and then a string never leaves the state that
    feeding the string and then [NULL] leaves: the byte fed for [NULL]
    keeps a sequence like [NULL], "a" apart from "a", [NULL]. *)
Theorem null_and_string_do_not_commute (self : BuilderCache) (s : string) :
  let null_first :=
    builder_cache_checksum_str (builder_cache_checksum_str self None)
      (Some s) in
  let null_last :=
    builder_cache_checksum_str (builder_cache_checksum_str self (Some s))
      None in
  checksum null_first
  = (checksum self ++ [x01] ++ list_byte_of_string s ++ [x00])%list
  ∧ checksum null_last
    = (checksum self ++ list_byte_of_string s ++ [x00; x01])%list
  ∧ checksum null_first ≠ checksum null_last.
Proof.
  intros null_first null_last.
  assert (checksum null_first
          = ((checksum self ++ [x01] ++ list_byte_of_string s) ++ [x00])%list)
    as H1.
  { unfold null_first. rewrite !checksum_str_bytes. cbn.
    by rewrite <- !app_assoc. }
  assert (checksum null_last
          = ((checksum self ++ list_byte_of_string s ++ [x00]) ++ [x01])%list)
    as H2.
  { unfold null_last. rewrite !checksum_str_bytes. cbn.
    by rewrite <- !app_assoc. }
  split; [by rewrite H1, <- !app_assoc|].
  split; [by rewrite H2, <- !app_assoc|].
  rewrite H1, H2. intros H. by apply app_inj_tail in H as [_ ?].
Qed.

Lemma step_checksum (op : Op) (self self' : BuilderCache) (r : Ret)
    (w w' : World) :
  step op self w = Returns (r, self', w') →
  checksum self' = checksum (feed_all self (fed [op]))
  ∧ branch self' = branch self ∧ context self' = context self.
Proof.
  destruct op as [e|e stage_name| |e|e body|e|e|e| |e|i]; simpl; intros H.
  - unfold builder_cache_open in H. repeat case_match; simplify_eq/=; done.
  - destruct (builder_cache_lookup e self stage_name w)
      as [[[b s1] w1]|] eqn:E; [|done].
    simplify_eq.
    unfold builder_cache_lookup, lookup_checkout in E.
    repeat case_match; simplify_eq/=; done.
  - by simplify_eq.
  - unfold builder_cache_ensure_checkout in H.
    repeat case_match; simplify_eq/=; done.
  - destruct (builder_cache_commit e self body w) as [[[b s1] w1]|] eqn:E;
      [|done]. simplify_eq.
    destruct (commit_cache _ _ _ _ _ _ _ E) as [->|[id ->]]; done.
  - by simplify_eq.
  - by simplify_eq.
  - by simplify_eq.
  - by simplify_eq.
  - destruct (builder_gc e self w). by simplify_eq.
  - simplify_eq. unfold fed, feed_all. cbn [omap list_omap fold_left].
    rewrite feed_encode. done.
Qed.

(** X5: over any run of calls of the interface that returns, the hash
    state is the initial state followed by what the accumulator calls of
    the run fed, in order: opening, lookups, checkouts, commits, the change
    queries and the garbage collection neither reset nor feed it, and the
    branch and the context stay as they were. *)
Theorem run_checksum (ops : list Op) (self self' : BuilderCache)
    (rs : list Ret) (w w' : World) :
  run ops self w = Returns (rs, self', w') →
  checksum self' = checksum (feed_all self (fed ops))
  ∧ builder_cache_get_current self'
    = builder_cache_get_current (feed_all self (fed ops))
  ∧ branch self' = branch self
  ∧ context self' = context self.
Proof.
  intros H.
  assert (checksum self' = checksum (feed_all self (fed ops))
          ∧ branch self' = branch self ∧ context self' = context self)
    as (Hc & Hb & Hx).
  { revert self rs w H. induction ops as [|op ops IH]; intros self rs w H.
    - by simplify_eq/=.
    - cbn [run] in H.
      destruct (step op self w) as [[[r s1] w1]|] eqn:E; [|done].
      destruct (run ops s1 w1) as [[[rs1 s2] w2]|] eqn:E2; [|done].
      simplify_eq.
      destruct (step_checksum _ _ _ _ _ _ E) as (Hc & Hb & Hx).
      destruct (IH _ _ _ E2) as (Hc' & Hb' & Hx').
      rewrite Hb', Hx', Hb, Hx. split; [|done].
      rewrite Hc'. rewrite !checksum_feed_all. rewrite Hc, checksum_feed_all.
      rewrite <- app_assoc. f_equal.
      destruct op; cbn [fed omap list_omap fmap list_fmap concat app];
        try rewrite app_nil_r; try done. }
  split; [done|]. split; [|done].
  unfold builder_cache_get_current. by rewrite Hc.
Qed.

(** X5 at a run that feeds a string, misses the stage [init] and feeds a
    boolean. *)
Lemma run_checksum_witness :
  checksum (builder_cache_checksum_boolean cache_at_init true)
  = checksum
      (feed_all (builder_cache_new ctx_plain "app")
         (fed [ OpChecksum (InStr (Some "gcc -O2"));
                OpLookup lookup_ok "init"; OpChecksum (InBoolean true) ]))
  ∧ builder_cache_get_current
      (builder_cache_checksum_boolean cache_at_init true)
    = builder_cache_get_current
        (feed_all (builder_cache_new ctx_plain "app")
           (fed [ OpChecksum (InStr (Some "gcc -O2"));
                  OpLookup lookup_ok "init"; OpChecksum (InBoolean true) ]))
  ∧ branch (builder_cache_checksum_boolean cache_at_init true)
    = branch (builder_cache_new ctx_plain "app")
  ∧ context (builder_cache_checksum_boolean cache_at_init true)
    = context (builder_cache_new ctx_plain "app").
Proof.
  apply (run_checksum
           [ OpChecksum (InStr (Some "gcc -O2")); OpLookup lookup_ok "init";
             OpChecksum (InBoolean true) ]
           (builder_cache_new ctx_plain "app")
           (builder_cache_checksum_boolean cache_at_init true)
           [RetVoid; RetBool false; RetVoid] built_world built_world).
  vm_compute. reflexivity.
Defined.

(** ** Checking out *)

Lemma tree_entry_of_checked_out (mode : OstreeRepoCheckoutMode) (now : Z)
    (te : TreeEntry) :
  tree_entry_of (checked_out_file mode now te) = te.
Proof. by destruct te, mode. Qed.

Lemma tree_of_checked_out (mode : OstreeRepoCheckoutMode) (now : Z)
    (t : gmap string TreeEntry) :
  tree_entry_of <$> (checked_out_file mode now <$> t) = t.
Proof.
  rewrite <- map_fmap_compose. rewrite <- (map_fmap_id t) at 2.
  apply map_fmap_ext. intros i x _. apply tree_entry_of_checked_out.
Qed.

Lemma zero_mtime_tree (io_ok : bool) (w w' : World) :
  flatpak_zero_mtime io_ok w = Some w' →
  tree_entry_of <$> w_app_dir w' = tree_entry_of <$> w_app_dir w
  ∧ (∀ p fi, w_app_dir w' !! p = Some fi → fi_mtime fi = 0)
  ∧ same_store w w' ∧ w_txn w' = w_txn w.
Proof.
  unfold flatpak_zero_mtime. destruct io_ok; [|done]. intros [= <-].
  cbn [w_app_dir set_w_app_dir]. split; [|split].
  - rewrite <- map_fmap_compose. apply map_fmap_ext. done.
  - intros p fi H. apply lookup_fmap_Some in H as (fi0 & <- & _). done.
  - done.
Qed.

(** A successful checkout: the commit and its tree are in the repository;
    the application directory holds the tree over what it held before, and
    nothing before when it was to be deleted; zero mtimes stay zero. *)
Lemma checkout_success (e : CheckoutEnv) (self : BuilderCache)
    (commit : string) (delete_dir : bool) (w w' : World) :
  builder_cache_checkout e self commit delete_dir w = (true, w') →
  ∃ c t,
    w_commits w !! commit = Some c
    ∧ w_trees w !! c_root c = Some t
    ∧ tree_entry_of <$> w_app_dir w' = t ∪ (tree_entry_of <$> w_app_dir w)
    ∧ (delete_dir = true → w_app_dir w = ∅)
    ∧ ((∀ p fi, w_app_dir w !! p = Some fi → fi_mtime fi = 0) →
       ∀ p fi, w_app_dir w' !! p = Some fi → fi_mtime fi = 0).
Proof.
  unfold builder_cache_checkout, ostree_repo_checkout_at.
  destruct (delete_dir && _) eqn:Hd; [intros; by simplify_eq/=|].
  destruct (negb (ck_enable_rofiles e)); [intros; by simplify_eq/=|].
  destruct (ck_checkout_at e); [|intros; by simplify_eq/=].
  destruct (w_commits w !! commit) as [c|] eqn:Hc; [|intros; by simplify_eq/=].
  destruct (w_trees w !! c_root c) as [t|] eqn:Ht; [|intros; by simplify_eq/=].
  intros H. exists c, t. split; [done|]. split; [done|].
  assert (delete_dir = true → w_app_dir w = ∅) as Hempty.
  { intros ->. simpl in Hd. apply negb_false_iff in Hd.
    apply andb_true_iff in Hd as [Hd _]. apply andb_true_iff in Hd as [_ Hd].
    by apply bool_decide_eq_true in Hd. }
  destruct (ck_rofiles_active e).
  - simplify_eq. cbn [w_app_dir set_w_app_dir].
    rewrite map_fmap_union, tree_of_checked_out.
    split; [done|]. split; [done|].
    intros Hz p fi Hp. apply lookup_union_Some_raw in Hp as [Hp|[_ Hp]].
    + apply lookup_fmap_Some in Hp as (te & <- & _). done.
    + by eapply Hz.
  - destruct (flatpak_zero_mtime _ _) as [w2|] eqn:Hzm; [|by simplify_eq/=].
    simplify_eq/=.
    apply zero_mtime_tree in Hzm as (Ht' & Hz & _).
    cbn [w_app_dir set_w_app_dir] in Ht'.
    rewrite Ht', map_fmap_union, tree_of_checked_out. done.
Qed.

Lemma checkout_user_mode (e : CheckoutEnv) (self : BuilderCache)
    (commit : string) (delete_dir : bool) (w w' : World) :
  ck_rofiles_active e = true →
  builder_cache_checkout e self commit delete_dir w = (true, w') →
  ∃ c t,
    w_commits w !! commit = Some c
    ∧ w_trees w !! c_root c = Some t
    ∧ w_app_dir w'
      = (checked_out_file OSTREE_REPO_CHECKOUT_MODE_USER (ck_now e) <$> t)
        ∪ w_app_dir w.
Proof.
  unfold builder_cache_checkout, ostree_repo_checkout_at. intros ->.
  repeat case_match; intros; simplify_eq; eauto.
Qed.

(** ** Lookup, continued *)

(** The three ways of a lookup: disabled, a hit, or the [checkout:]
    label. *)
Lemma lookup_cases (e : LookupEnv) (self : BuilderCache) (stage_name : string)
    (w : World) :
  let begun := lookup_begin self stage_name in
  (disabled self = true
   ∧ builder_cache_lookup e self stage_name w = Returns (false, begun, w))
  ∨ (disabled self = false
     ∧ ∃ commit variant,
         w_refs w !! get_ref self stage_name = Some commit
         ∧ w_commits w !! commit = Some variant
         ∧ c_subject variant = builder_cache_get_current self
         ∧ builder_cache_lookup e self stage_name w
           = Returns (true, set_last_parent (Some commit) begun, w))
  ∨ (disabled self = false
     ∧ builder_cache_lookup e self stage_name w
       = match last_parent self with
         | Some parent =>
             match builder_cache_checkout (le_checkout e) begun parent true w
             with
             | (true, w') => Returns (false, set_disabled true begun, w')
             | (false, w') => Aborted w'
             end
         | None => Returns (false, set_disabled true begun, w)
         end).
Proof.
  intros begun. destruct (disabled self) eqn:Hd.
  { left. split; [done|]. by apply lookup_disabled. }
  right.
  unfold builder_cache_lookup, lookup_checkout.
  change (disabled (lookup_begin self stage_name)) with (disabled self).
  change (builder_cache_get_current_ref (lookup_begin self stage_name))
    with (Some (get_ref self stage_name)).
  change (last_parent (lookup_begin self stage_name))
    with (last_parent self).
  change (builder_cache_get_current (lookup_begin self stage_name))
    with (builder_cache_get_current self).
  rewrite Hd. lazy beta iota zeta. fold begun.
  unfold ostree_repo_resolve_rev, ostree_repo_load_variant.
  destruct (le_resolve_rev e && w_cache_dir_exists w); [|by right].
  destruct (w_refs w !! get_ref self stage_name) as [commit|] eqn:Hr;
    [|by right].
  destruct (le_load_variant e && w_cache_dir_exists w); [|by right].
  destruct (w_commits w !! commit) as [variant|] eqn:Hc; [|by right].
  destruct (String.eqb (c_subject variant) (builder_cache_get_current self))
    eqn:Hs; [|by right].
  left. split; [done|]. exists commit, variant.
  apply String.eqb_eq in Hs. done.
Qed.

(** X6: [builder_cache_lookup] reports a hit only when lookups were not
    disabled, the ref of the stage resolves to a commit of the repository
    and the subject of that commit is the current digest; the world is then
    untouched and [last_parent] is that commit. *)
Theorem lookup_hit_sound (e : LookupEnv) (self self' : BuilderCache)
    (stage_name : string) (w w' : World) :
  builder_cache_lookup e self stage_name w = Returns (true, self', w') →
  disabled self = false
  ∧ w' = w
  ∧ ∃ commit variant,
      w_refs w !! get_ref self stage_name = Some commit
      ∧ w_commits w !! commit = Some variant
      ∧ c_subject variant = builder_cache_get_current self
      ∧ self' = set_last_parent (Some commit) (lookup_begin self stage_name).
Proof.
  intros H.
  destruct (lookup_cases e self stage_name w)
    as [[Hd E]|[(Hd & commit & variant & Hr & Hc & Hs & E)|[Hd E]]];
    rewrite E in H.
  - done.
  - simplify_eq. split; [done|]. split; [done|]. by exists commit, variant.
  - repeat case_match; simplify_eq.
Qed.

(** X6 at the first lookup of a fresh cache on a repository that holds
    the stage. *)
Lemma lookup_hit_sound_witness :
  disabled (builder_cache_new ctx_plain "app") = false
  ∧ cached_world = cached_world
  ∧ ∃ commit variant,
      w_refs cached_world !! get_ref (builder_cache_new ctx_plain "app") "init"
      = Some commit
      ∧ w_commits cached_world !! commit = Some variant
      ∧ c_subject variant
        = builder_cache_get_current (builder_cache_new ctx_plain "app")
      ∧ cache_after_hit
        = set_last_parent (Some commit)
            (lookup_begin (builder_cache_new ctx_plain "app") "init").
Proof.
  apply (lookup_hit_sound lookup_ok (builder_cache_new ctx_plain "app")
           cache_after_hit "init" cached_world cached_world).
  vm_compute. reflexivity.
Defined.

(** X7: whatever a lookup returns, it has recorded the stage as the
    current one and taken its name out of [unused_stages]; the hash state,
    the branch and the context are as before; the repository and the
    transaction are untouched. A miss leaves lookups disabled and
    [last_parent] as it was. With lookups disabled before, or with no
    [last_parent], the application directory is untouched too. *)
Theorem lookup_bookkeeping (e : LookupEnv) (self self' : BuilderCache)
    (stage_name : string) (r : bool) (w w' : World) :
  builder_cache_lookup e self stage_name w = Returns (r, self', w') →
  stage self' = Some stage_name
  ∧ unused_stages self' = unused_stages self ∖ {[ stage_name ]}
  ∧ checksum self' = checksum self
  ∧ branch self' = branch self
  ∧ context self' = context self
  ∧ same_store w w'
  ∧ w_txn w' = w_txn w
  ∧ (r = false → disabled self' = true ∧ last_parent self' = last_parent self)
  ∧ (disabled self = true ∨ last_parent self = None → w' = w).
Proof.
  intros H.
  destruct (lookup_cases e self stage_name w)
    as [[Hd E]|[(Hd & commit & variant & Hr & Hc & Hs & E)|[Hd E]]];
    rewrite E in H.
  - simplify_eq. cbn. rewrite Hd. done.
  - simplify_eq. cbn. repeat split; done.
  - destruct (last_parent self) as [parent|] eqn:Hp.
    + destruct (builder_cache_checkout _ _ _ _ _) as [[] w1] eqn:Hc;
        [|done]. simplify_eq.
      destruct (checkout_frame _ _ _ _ _ _ _ Hc) as [Hs Ht].
      cbn. repeat split; try done; try apply Hs. intros [?|?]; congruence.
    + simplify_eq. cbn. done.
Qed.

(** X7 at the miss of the stage [build] after the hit of [init]. *)
Lemma lookup_bookkeeping_witness :
  stage (set_disabled true (lookup_begin cache_after_hit "build"))
  = Some "build"
  ∧ unused_stages (set_disabled true (lookup_begin cache_after_hit "build"))
    = unused_stages cache_after_hit ∖ {[ "build" ]}
  ∧ checksum (set_disabled true (lookup_begin cache_after_hit "build"))
    = checksum cache_after_hit
  ∧ branch (set_disabled true (lookup_begin cache_after_hit "build"))
    = branch cache_after_hit
  ∧ context (set_disabled true (lookup_begin cache_after_hit "build"))
    = context cache_after_hit
  ∧ same_store cached_world checked_out_world
  ∧ w_txn checked_out_world = w_txn cached_world
  ∧ (false = false →
     disabled (set_disabled true (lookup_begin cache_after_hit "build")) = true
     ∧ last_parent (set_disabled true (lookup_begin cache_after_hit "build"))
       = last_parent cache_after_hit)
  ∧ (disabled cache_after_hit = true ∨ last_parent cache_after_hit = None →
     checked_out_world = cached_world).
Proof.
  apply (lookup_bookkeeping lookup_ok cache_after_hit
           (set_disabled true (lookup_begin cache_after_hit "build"))
           "build" false cached_world checked_out_world).
  vm_compute. reflexivity.
Defined.

(** X8: a hit followed by a miss. The miss checks out the commit of the
    hit: when it returns, the application directory, which was empty or
    missing, holds exactly the tree of the commit the first stage's ref
    points to, with every mtime zero; the repository is untouched,
    [last_parent] is still that commit and lookups are disabled. *)
Theorem miss_after_hit_restores_hit (e1 e2 : LookupEnv)
    (self self1 self2 : BuilderCache) (stage1 stage2 : string)
    (w w1 w2 : World) :
  builder_cache_lookup e1 self stage1 w = Returns (true, self1, w1) →
  builder_cache_lookup e2 self1 stage2 w1 = Returns (false, self2, w2) →
  ∃ commit c t,
    w_refs w !! get_ref self stage1 = Some commit
    ∧ w_commits w !! commit = Some c
    ∧ w_trees w !! c_root c = Some t
    ∧ w_app_dir w = ∅
    ∧ tree_entry_of <$> w_app_dir w2 = t
    ∧ (∀ p fi, w_app_dir w2 !! p = Some fi → fi_mtime fi = 0)
    ∧ same_store w w2
    ∧ last_parent self2 = Some commit
    ∧ disabled self2 = true.
Proof.
  intros H1 H2.
  assert (w1 = w ∧ ∃ commit c,
            w_refs w !! get_ref self stage1 = Some commit
            ∧ w_commits w !! commit = Some c
            ∧ self1 = set_last_parent (Some commit) (lookup_begin self stage1)
            ∧ disabled self = false)
    as (-> & commit & c & Hr & Hc & -> & Hd).
  { destruct (lookup_cases e1 self stage1 w)
      as [[Hd E]|[(Hd & commit & c & Hr & Hc & _ & E)|[Hd E]]];
      rewrite E in H1.
    - done.
    - simplify_eq. split; [done|]. by exists commit, c.
    - repeat case_match; simplify_eq. }
  destruct (lookup_cases e2
              (set_last_parent (Some commit) (lookup_begin self stage1))
              stage2 w)
    as [[Hd' E]|[(Hd' & ? & ? & _ & _ & _ & E)|[Hd' E]]];
    rewrite E in H2.
  - cbn in Hd'. congruence.
  - done.
  - cbn [last_parent set_last_parent] in H2.
    destruct (builder_cache_checkout _ _ _ _ _) as [[] w'] eqn:Hck; [|done].
    simplify_eq.
    destruct (checkout_frame _ _ _ _ _ _ _ Hck) as [Hst _].
    apply checkout_success in Hck as (c' & t & Hc' & Ht & Hdir & He & Hz).
    rewrite Hc in Hc'. simplify_eq.
    exists commit, c', t. rewrite (He eq_refl) in Hdir, Hz.
    rewrite fmap_empty, (right_id_L ∅ (∪)) in Hdir.
    split_and!; try done; try apply Hst; try by apply He.
    apply Hz. intros p fi. by rewrite lookup_empty.
Qed.

(** X8 at the hit of [init] and the miss of [build]. *)
Lemma miss_after_hit_restores_hit_witness :
  ∃ commit c t,
    w_refs cached_world !! get_ref (builder_cache_new ctx_plain "app") "init"
    = Some commit
    ∧ w_commits cached_world !! commit = Some c
    ∧ w_trees cached_world !! c_root c = Some t
    ∧ w_app_dir cached_world = ∅
    ∧ tree_entry_of <$> w_app_dir checked_out_world = t
    ∧ (∀ p fi, w_app_dir checked_out_world !! p = Some fi → fi_mtime fi = 0)
    ∧ same_store cached_world checked_out_world
    ∧ last_parent (set_disabled true (lookup_begin cache_after_hit "build"))
      = Some commit
    ∧ disabled (set_disabled true (lookup_begin cache_after_hit "build"))
      = true.
Proof.
  apply (miss_after_hit_restores_hit lookup_ok lookup_ok
           (builder_cache_new ctx_plain "app") cache_after_hit
           (set_disabled true (lookup_begin cache_after_hit "build"))
           "init" "build" cached_world cached_world checked_out_world);
    vm_compute; reflexivity.
Defined.

(** X9: with a [last_parent] set and lookups enabled, a lookup on an
    application directory that holds a file never returns a miss: it is a
    hit, or the process ends in [g_error], because the checkout deletes the
    directory with [g_file_delete], which removes empty directories
    only. *)
Theorem miss_after_hit_needs_empty_app_dir (e : LookupEnv)
    (self : BuilderCache) (stage_name parent path : string) (fi : FileInfo)
    (w : World) :
  disabled self = false →
  last_parent self = Some parent →
  w_app_dir w !! path = Some fi →
  builder_cache_lookup e self stage_name w = Aborted w
  ∨ ∃ commit,
      w_refs w !! get_ref self stage_name = Some commit
      ∧ builder_cache_lookup e self stage_name w
        = Returns (true,
                   set_last_parent (Some commit)
                     (lookup_begin self stage_name), w).
Proof.
  intros Hd Hp Hfile.
  assert (w_app_dir w ≠ ∅) as Hne.
  { intros Hempty. by rewrite Hempty, lookup_empty in Hfile. }
  destruct (lookup_cases e self stage_name w)
    as [[Hd' E]|[(Hd' & commit & variant & Hr & _ & _ & E)|[Hd' E]]].
  - congruence.
  - right. by exists commit.
  - left. rewrite E, Hp. unfold builder_cache_checkout.
    rewrite (bool_decide_eq_false_2 _ Hne), andb_false_r. done.
Qed.

(** X9 at the miss of [build] over a directory that was checked out
    already. *)
Lemma miss_after_hit_needs_empty_app_dir_witness :
  builder_cache_lookup lookup_ok cache_after_hit "build" checked_out_world
  = Aborted checked_out_world
  ∨ ∃ commit,
      w_refs checked_out_world !! get_ref cache_after_hit "build" = Some commit
      ∧ builder_cache_lookup lookup_ok cache_after_hit "build"
          checked_out_world
        = Returns (true,
                   set_last_parent (Some commit)
                     (lookup_begin cache_after_hit "build"),
                   checked_out_world).
Proof.
  apply (miss_after_hit_needs_empty_app_dir lookup_ok cache_after_hit "build"
           "commit1" "files/bin/hello" hello_linked checked_out_world);
    vm_compute; reflexivity.
Defined.

(** X26: a lookup that cannot read the repository (the ref cannot be
    resolved, the commit cannot be loaded, or there is no repository) never
    reports the error: when it returns, it is a miss with lookups disabled,
    and with no [last_parent] the world is untouched; it ends the process
    only on a cache with lookups enabled and a [last_parent], in the
    checkout. *)
Theorem unreadable_repository_is_a_miss (e : LookupEnv) (self : BuilderCache)
    (stage_name : string) (w : World) :
  le_resolve_rev e = false ∨ le_load_variant e = false
  ∨ w_cache_dir_exists w = false →
  match builder_cache_lookup e self stage_name w with
  | Returns (r, self', w') =>
      r = false ∧ disabled self' = true
      ∧ (last_parent self = None → w' = w)
  | Aborted _ => disabled self = false ∧ is_Some (last_parent self)
  end.
Proof.
  intros H.
  unfold builder_cache_lookup, lookup_checkout, ostree_repo_resolve_rev,
    ostree_repo_load_variant.
  change (disabled (lookup_begin self stage_name)) with (disabled self).
  change (builder_cache_get_current_ref (lookup_begin self stage_name))
    with (Some (get_ref self stage_name)).
  change (last_parent (lookup_begin self stage_name))
    with (last_parent self).
  destruct (disabled self) eqn:Hd; [by cbn; rewrite Hd|].
  assert (le_resolve_rev e && w_cache_dir_exists w = false
          ∨ le_load_variant e && w_cache_dir_exists w = false) as [Hio|Hio].
  { destruct H as [-> | [-> | ->]]; rewrite ?andb_false_r; auto. }
  - rewrite Hio. destruct (last_parent self) as [parent|]; [|done].
    destruct (builder_cache_checkout _ _ _ _ _) as [[] w1]; [done|eauto].
  - lazy beta iota zeta. rewrite Hio.
    destruct (le_resolve_rev e && w_cache_dir_exists w);
      [destruct (w_refs w !! get_ref self stage_name)|];
      (destruct (last_parent self) as [parent|]; [|done]);
      (destruct (builder_cache_checkout _ _ _ _ _) as [[] w1];
       [done|eauto]).
Qed.

(** X26 at a lookup whose load of the commit meets an I/O error. *)
Lemma unreadable_repository_is_a_miss_witness :
  false = false
  ∧ disabled (set_disabled true
                (lookup_begin (builder_cache_new ctx_plain "app") "init"))
    = true
  ∧ (last_parent (builder_cache_new ctx_plain "app") = None →
     world_with_ref "app/init" = world_with_ref "app/init").
Proof.
  apply (unreadable_repository_is_a_miss
           {| le_resolve_rev := true; le_load_variant := false;
              le_checkout := checkout_ok |}
           (builder_cache_new ctx_plain "app") "init"
           (world_with_ref "app/init")).
  right; left; reflexivity.
Defined.

(** ** Ensuring a checkout *)

(** X10: after [builder_cache_ensure_checkout] returned,
    [builder_cache_has_checkout] is true, a second call changes nothing in
    any environment, and every later lookup is a miss that leaves the world
    alone. A call on a cache that has a checkout already does nothing. *)
Theorem ensure_checkout_idempotent (e : CheckoutEnv)
    (self self1 : BuilderCache) (w w1 : World) :
  builder_cache_ensure_checkout e self w = Returns (self1, w1) →
  builder_cache_has_checkout self1 = true
  ∧ (∀ e2, builder_cache_ensure_checkout e2 self1 w1 = Returns (self1, w1))
  ∧ (∀ le stage_name w2,
       builder_cache_lookup le self1 stage_name w2
       = Returns (false, lookup_begin self1 stage_name, w2))
  ∧ (builder_cache_has_checkout self = true → self1 = self ∧ w1 = w).
Proof.
  unfold builder_cache_ensure_checkout, builder_cache_has_checkout.
  intros H.
  assert (disabled self1 = true) as Hd1.
  { destruct (disabled self) eqn:Hd; [by simplify_eq|].
    repeat case_match; by simplify_eq. }
  split; [done|]. split; [|split].
  - intros e2. by rewrite Hd1.
  - intros le stage_name w2. by apply lookup_disabled.
  - intros Hd. rewrite Hd in H. by simplify_eq.
Qed.

(** X10 at the call after the hit of [init]. *)
Lemma ensure_checkout_idempotent_witness :
  builder_cache_has_checkout (set_disabled true cache_after_hit) = true
  ∧ (∀ e2, builder_cache_ensure_checkout e2 (set_disabled true cache_after_hit)
             checked_out_world
           = Returns (set_disabled true cache_after_hit, checked_out_world))
  ∧ (∀ le stage_name w2,
       builder_cache_lookup le (set_disabled true cache_after_hit) stage_name
         w2
       = Returns (false,
                  lookup_begin (set_disabled true cache_after_hit) stage_name,
                  w2))
  ∧ (builder_cache_has_checkout cache_after_hit = true →
     set_disabled true cache_after_hit = cache_after_hit
     ∧ checked_out_world = cached_world).
Proof.
  apply (ensure_checkout_idempotent checkout_ok cache_after_hit
           (set_disabled true cache_after_hit) cached_world
           checked_out_world).
  vm_compute. reflexivity.
Defined.

(** X11: on a cache with lookups enabled and a [last_parent],
    [builder_cache_ensure_checkout] returns only after checking that commit
    out: the application directory, empty or missing before, holds exactly
    the tree of [last_parent] with every mtime zero, the repository is
    untouched, and the only change to the cache is the disabled flag. *)
Theorem ensure_checkout_restores_last_hit (e : CheckoutEnv)
    (self self1 : BuilderCache) (parent : string) (w w1 : World) :
  disabled self = false →
  last_parent self = Some parent →
  builder_cache_ensure_checkout e self w = Returns (self1, w1) →
  self1 = set_disabled true self
  ∧ ∃ c t,
      w_commits w !! parent = Some c
      ∧ w_trees w !! c_root c = Some t
      ∧ w_app_dir w = ∅
      ∧ tree_entry_of <$> w_app_dir w1 = t
      ∧ (∀ p fi, w_app_dir w1 !! p = Some fi → fi_mtime fi = 0)
      ∧ same_store w w1.
Proof.
  unfold builder_cache_ensure_checkout, builder_cache_has_checkout.
  intros -> ->.
  destruct (builder_cache_checkout _ _ _ _ _) as [[] w'] eqn:Hck; [|done].
  intros [= <- <-]. split; [done|].
  destruct (checkout_frame _ _ _ _ _ _ _ Hck) as [Hst _].
  apply checkout_success in Hck as (c & t & Hc & Ht & Hdir & He & Hz).
  exists c, t. rewrite (He eq_refl) in Hdir, Hz.
  rewrite fmap_empty, (right_id_L ∅ (∪)) in Hdir.
  split_and!; try done; try apply Hst; try by apply He.
  apply Hz. intros p fi. by rewrite lookup_empty.
Qed.

(** X11 at the call after the hit of [init]. *)
Lemma ensure_checkout_restores_last_hit_witness :
  set_disabled true cache_after_hit = set_disabled true cache_after_hit
  ∧ ∃ c t,
      w_commits cached_world !! "commit1" = Some c
      ∧ w_trees cached_world !! c_root c = Some t
      ∧ w_app_dir cached_world = ∅
      ∧ tree_entry_of <$> w_app_dir checked_out_world = t
      ∧ (∀ p fi, w_app_dir checked_out_world !! p = Some fi →
                 fi_mtime fi = 0)
      ∧ same_store cached_world checked_out_world.
Proof.
  apply (ensure_checkout_restores_last_hit checkout_ok cache_after_hit
           (set_disabled true cache_after_hit) "commit1" cached_world
           checked_out_world);
    vm_compute; reflexivity.
Defined.

(** ** Commit, continued *)

Lemma commit_landed (e : CommitEnv) (self self' : BuilderCache)
    (body : string) (w w' : World) :
  builder_cache_commit e self body w = Returns (true, self', w') →
  ∃ stage_name root1 id1 root2 id2,
    stage self = Some stage_name
    ∧ ce_write_mtree e = Some root1
    ∧ ce_write_commit e = Some id1
    ∧ ce_write_mtree2 e = Some root2
    ∧ ce_write_commit2 e = Some id2
    ∧ w_txn w = None
    ∧ w_cache_dir_exists w = true
    ∧ self' = set_last_parent (Some id1) self
    ∧ let cw := committed_world self body (get_ref self stage_name)
                  root1 id1 root2 id2 w in
      if use_rofiles (context self)
      then builder_cache_checkout (ce_checkout e) self id2 false cw
           = (true, w')
      else w' = cw.
Proof.
  unfold builder_cache_commit, commit_in_transaction.
  unfold flatpak_zero_mtime, ostree_repo_prepare_transaction,
    ostree_repo_write_directory_to_mtree, ostree_repo_write_mtree,
    ostree_repo_write_commit, ostree_repo_transaction_set_ref,
    ostree_repo_commit_transaction, builder_cache_get_current_ref.
  destruct e as [zm pt wd wm wc wd2 wm2 wc2 ct ck ab]; simpl.
  destruct zm; [|done].
  simpl. destruct (w_txn w) eqn:Ht; [done|].
  destruct pt; [|done].
  destruct (w_cache_dir_exists w) eqn:Hex; [|done].
  simpl.
  destruct wd; [|done].
  destruct wm as [root1|]; [|done].
  simpl. destruct wc as [id1|]; [|done].
  simpl. destruct (stage self) as [stage_name|] eqn:Hst; simpl; [|done].
  destruct wd2; [|done].
  destruct wm2 as [root2|]; [|done].
  simpl. destruct wc2 as [id2|]; [|done].
  simpl. destruct ct; [|done].
  unfold committed_world.
  destruct (use_rofiles (context self)).
  - destruct (builder_cache_checkout _ _ _ _ _) as [[] w1] eqn:Hck; [|done].
    intros [= <- <-].
    exists stage_name, root1, id1, root2, id2.
    repeat (split; [reflexivity|]). exact Hck.
  - intros [= <- <-]. exists stage_name, root1, id1, root2, id2.
    repeat (split; [reflexivity|]). reflexivity.
Qed.

Lemma filter_allows_new_file (p : string) (fi : FileInfo) :
  filter_allows (Some filter_only_non_hardlinked) p fi = true ↔ new_file fi.
Proof.
  unfold filter_allows, filter_only_non_hardlinked, new_file.
  destruct (decide (fi_type fi = G_FILE_TYPE_DIRECTORY)) as [Hd|Hd].
  { split; [by left|done]. }
  destruct (bool_decide_reflect (fi_type fi = G_FILE_TYPE_REGULAR)) as [Hr|Hr];
    simpl.
  - destruct (Z.eqb_spec (fi_nlink fi) 1); split; try done.
    + by right.
    + intros [?|[_ ?]]; done.
  - split; [done|]. intros [?|[? _]]; done.
Qed.

Lemma full_tree_snapshot (f : FileInfo → FileInfo)
    (d : gmap string FileInfo) :
  (∀ fi, tree_entry_of (f fi) = tree_entry_of fi) →
  tree_entry_of <$>
    filter (λ kv : string * FileInfo, filter_allows None kv.1 kv.2 = true)
           (f <$> d)
  = tree_entry_of <$> d.
Proof.
  intros Hf. rewrite map_filter_id by done.
  rewrite <- map_fmap_compose. apply map_fmap_ext. intros ? ? _. apply Hf.
Qed.

Lemma new_tree_lookup (f : FileInfo → FileInfo) (d : gmap string FileInfo)
    (p : string) (te : TreeEntry) :
  (∀ fi, tree_entry_of (f fi) = tree_entry_of fi) →
  (∀ fi, new_file (f fi) ↔ new_file fi) →
  (tree_entry_of <$>
     filter (λ kv : string * FileInfo,
               filter_allows (Some filter_only_non_hardlinked) kv.1 kv.2
               = true)
            (f <$> d)) !! p = Some te
  ↔ ∃ fi, d !! p = Some fi ∧ te = tree_entry_of fi ∧ new_file fi.
Proof.
  intros Hf Hn. rewrite lookup_fmap_Some. split.
  - intros (fi' & <- & H). apply map_lookup_filter_Some in H as [H Hp].
    apply lookup_fmap_Some in H as (fi & <- & H). exists fi.
    cbn in Hp. apply filter_allows_new_file in Hp.
    apply (proj1 (Hn _)) in Hp. by rewrite Hf.
  - intros (fi & H & -> & Hp). exists (f fi). split; [apply Hf|].
    apply map_lookup_filter_Some. split.
    + rewrite lookup_fmap, H. done.
    + cbn. by apply filter_allows_new_file, (proj2 (Hn _)).
Qed.

Lemma zeroed_tree_entry (fi : FileInfo) :
  tree_entry_of (zeroed fi) = tree_entry_of fi.
Proof. done. Qed.

Lemma zeroed_new_file (fi : FileInfo) : new_file (zeroed fi) ↔ new_file fi.
Proof. done. Qed.

(** The repository and the application directory of the world in which
    the transaction of a commit has landed. *)
Lemma committed_world_facts (self : BuilderCache) (body : string)
    (ref root1 id1 root2 id2 : string) (w : World) :
  let cw := committed_world self body ref root1 id1 root2 id2 w in
  let current := builder_cache_get_current self in
  w_refs cw !! ref = Some id1
  ∧ w_commits cw !! id2
    = Some {| c_parent := None; c_subject := current; c_body := body;
              c_root := root2 |}
  ∧ (∀ te p,
       (∃ t2, w_trees cw !! root2 = Some t2 ∧ t2 !! p = Some te)
       ↔ ∃ fi, w_app_dir w !! p = Some fi ∧ te = tree_entry_of fi
               ∧ new_file fi)
  ∧ (id1 ≠ id2 →
     w_commits cw !! id1
     = Some {| c_parent := last_parent self; c_subject := current;
               c_body := body; c_root := root1 |})
  ∧ (root1 ≠ root2 → w_trees cw !! root1 = Some (snapshot w))
  ∧ ((∀ p fi, w_app_dir w !! p = Some fi → new_file fi) →
     w_trees cw !! root2 = Some (snapshot w))
  ∧ snapshot cw = snapshot w
  ∧ (∀ p fi, w_app_dir cw !! p = Some fi → fi_mtime fi = 0)
  ∧ w_txn cw = None
  ∧ w_cache_dir_exists cw = w_cache_dir_exists w.
Proof.
  intros cw current. unfold cw, committed_world, snapshot.
  cbn [w_refs w_commits w_trees w_app_dir w_txn w_cache_dir_exists].
  fold zeroed.
  split_and!.
  - apply lookup_union_Some_l, lookup_insert_eq.
  - apply lookup_union_Some_l, lookup_insert_eq.
  - intros te p. rewrite <- (new_tree_lookup zeroed (w_app_dir w) p te)
      by done.
    rewrite (lookup_union_Some_l _ _ _ _ (lookup_insert_eq _ _ _)).
    split; [by intros (t2 & [= <-] & H)|]. intros H. eauto.
  - intros Hne. apply lookup_union_Some_l.
    rewrite lookup_insert_ne by done. apply lookup_insert_eq.
  - intros Hne. apply lookup_union_Some_l.
    rewrite lookup_insert_ne by done. rewrite lookup_insert_eq.
    by rewrite full_tree_snapshot.
  - intros Hall. apply lookup_union_Some_l. rewrite lookup_insert_eq.
    f_equal. apply map_eq. intros p. apply option_eq. intros te.
    rewrite (new_tree_lookup zeroed) by done.
    rewrite lookup_fmap_Some. split.
    + intros (fi & ? & -> & _). eauto.
    + intros (fi & <- & ?). eauto.
  - rewrite <- map_fmap_compose. by apply map_fmap_ext.
  - intros p fi H. by apply lookup_fmap_Some in H as (? & <- & _).
  - done.
  - done.
Qed.

(** A checkout that copies, as it does when rofiles are not active, ends
    with [flatpak_zero_mtime]. *)
Lemma checkout_copy_zeroes_mtimes (e : CheckoutEnv) (self : BuilderCache)
    (commit : string) (delete_dir : bool) (w w' : World) :
  ck_rofiles_active e = false →
  builder_cache_checkout e self commit delete_dir w = (true, w') →
  ∀ p fi, w_app_dir w' !! p = Some fi → fi_mtime fi = 0.
Proof.
  unfold builder_cache_checkout. intros ->.
  destruct (delete_dir && _); [done|].
  destruct (negb (ck_enable_rofiles e)); [done|].
  destruct (ostree_repo_checkout_at _ _ _ _ _) as [w1|]; [|done].
  destruct (flatpak_zero_mtime _ _) as [w2|] eqn:Hzm; [|done].
  intros [= <-]. by apply zero_mtime_tree in Hzm as (_ & Hz & _).
Qed.

(** The world a successful commit leaves, against the world in which its
    transaction landed. *)
Lemma commit_leaves (e : CommitEnv) (self self' : BuilderCache)
    (body : string) (w w' : World) :
  builder_cache_commit e self body w = Returns (true, self', w') →
  ∃ stage_name root1 id1 root2 id2,
    stage self = Some stage_name
    ∧ ce_write_mtree e = Some root1
    ∧ ce_write_commit e = Some id1
    ∧ ce_write_mtree2 e = Some root2
    ∧ ce_write_commit2 e = Some id2
    ∧ w_txn w = None
    ∧ w_cache_dir_exists w = true
    ∧ self' = set_last_parent (Some id1) self
    ∧ let cw := committed_world self body (get_ref self stage_name)
                  root1 id1 root2 id2 w in
      same_store cw w'
      ∧ w_txn w' = None
      ∧ snapshot w' = snapshot w
      ∧ (use_rofiles (context self) = false
         ∨ ck_rofiles_active (ce_checkout e) = false →
         ∀ p fi, w_app_dir w' !! p = Some fi → fi_mtime fi = 0).
Proof.
  intros H. apply commit_landed in H
    as (stage_name & root1 & id1 & root2 & id2 & Hst & Hm1 & Hc1 & Hm2 & Hc2
        & Htx & Hex & -> & H).
  exists stage_name, root1, id1, root2, id2.
  repeat (split; [done|]). cbv zeta in H |- *.
  destruct (committed_world_facts self body (get_ref self stage_name)
              root1 id1 root2 id2 w)
    as (_ & Hid2 & Ht2 & _ & _ & _ & Hsnap & Hz & Htxn & _).
  cbv zeta in *.
  set (cw := committed_world self body (get_ref self stage_name)
               root1 id1 root2 id2 w) in *.
  destruct (use_rofiles (context self)); [|by subst w'].
  destruct (checkout_frame _ _ _ _ _ _ _ H) as [Hs Ht].
  pose proof H as Hcopy.
  apply checkout_success in H as (c & t & Hc & Htree & Hdir & _ & _).
  split; [done|]. split; [congruence|]. split.
  2:{ intros [?|Hact]; [done|].
      by apply (checkout_copy_zeroes_mtimes _ _ _ _ _ _ Hact Hcopy). }
  rewrite Hid2 in Hc. injection Hc as <-. cbn [c_root] in Htree.
  fold (snapshot w') in Hdir. fold (snapshot cw) in Hdir.
  rewrite Hdir, Hsnap. apply map_subseteq_union.
  apply map_subseteq_spec. intros p te Hp.
  assert (∃ t2, w_trees cw !! root2 = Some t2 ∧ t2 !! p = Some te) as Hex2
    by eauto.
  apply Ht2 in Hex2 as (fi & Hfi & -> & _).
  unfold snapshot. by rewrite lookup_fmap, Hfi.
Qed.

(** X12: [builder_cache_commit] changes nothing of the cache but
    [last_parent], and that on success only: a failed commit returns the
    cache as it was; a successful one had a stage set and no transaction
    open, sets [last_parent] to the checksum of the first commit it wrote,
    which the ref of the stage now points to, and leaves no transaction
    open. *)
Theorem commit_updates_last_parent (e : CommitEnv)
    (self self' : BuilderCache) (body : string) (r : bool) (w w' : World) :
  builder_cache_commit e self body w = Returns (r, self', w') →
  if r
  then ∃ stage_name commit,
         stage self = Some stage_name
         ∧ ce_write_commit e = Some commit
         ∧ self' = set_last_parent (Some commit) self
         ∧ w_refs w' !! get_ref self stage_name = Some commit
         ∧ w_txn w = None
         ∧ w_txn w' = None
  else self' = self.
Proof.
  destruct r; intros H.
  - apply commit_leaves in H
      as (stage_name & root1 & id1 & root2 & id2 & Hst & _ & Hc1 & _ & _
          & Htx & _ & -> & Hs & Htx' & _).
    exists stage_name, id1. split_and!; try done.
    destruct Hs as (_ & -> & _).
    apply (committed_world_facts self body (get_ref self stage_name)).
  - destruct (commit_cases e self body w)
      as [(w1 & E & _) | [(w1 & E & _)
           | (stage_name & root1 & id1 & root2 & id2 & _ & _ & _ & _ & _ & _
              & E)]];
      cbv zeta in E; rewrite E in H.
    + by simplify_eq.
    + done.
    + repeat case_match; by simplify_eq.
Qed.

(** X12 at the commit of the stage [init] on an empty repository. *)
Lemma commit_updates_last_parent_witness :
  ∃ stage_name commit,
    stage cache_at_init = Some stage_name
    ∧ ce_write_commit (commit_env checkout_ok) = Some commit
    ∧ set_last_parent (Some "commit1") cache_at_init
      = set_last_parent (Some commit) cache_at_init
    ∧ w_refs committed !! get_ref cache_at_init stage_name = Some commit
    ∧ w_txn built_world = None
    ∧ w_txn committed = None.
Proof.
  apply (commit_updates_last_parent (commit_env checkout_ok) cache_at_init
           (set_last_parent (Some "commit1") cache_at_init) "Initialized"
           true built_world committed).
  vm_compute. reflexivity.
Defined.



Lemma committed_world_snapshot (e : CommitEnv) (self : BuilderCache)
    (body ref root1 id1 root2 id2 : string) (w : World) :
  content_addressed e self w →
  ce_write_mtree e = Some root1 → ce_write_commit e = Some id1 →
  ce_write_mtree2 e = Some root2 → ce_write_commit2 e = Some id2 →
  let cw := committed_world self body ref root1 id1 root2 id2 w in
  w_commits cw !! id1
  = Some {| c_parent := last_parent self;
            c_subject := builder_cache_get_current self;
            c_body := body; c_root := root1 |}
  ∧ w_trees cw !! root1 = Some (snapshot w).
Proof.
  intros [Htree Hcommit] Hm1 Hc1 Hm2 Hc2.
  destruct (committed_world_facts self body ref root1 id1 root2 id2 w)
    as (_ & Hid2 & _ & Hid1 & Hr1 & Hr2 & _).
  cbv zeta in *. rewrite Hm1, Hm2 in Htree, Hcommit.
  rewrite Hc1, Hc2 in Hcommit.
  split.
  - destruct (decide (id1 = id2)) as [<-|Hne]; [|by apply Hid1].
    destruct (Hcommit eq_refl) as [-> [= <-]]. done.
  - destruct (decide (root1 = root2)) as [<-|Hne]; [|by apply Hr1].
    apply Hr2, Htree. done.
Qed.

(** X14: in a store that names objects by content, the commit the ref of
    the stage points to after a successful [builder_cache_commit] has the
    previous [last_parent] as its parent, the digest as its subject, the
    body given, and as its tree the types and contents of every file of the
    application directory. *)
Theorem commit_stores_snapshot (e : CommitEnv) (self self' : BuilderCache)
    (body stage_name : string) (w w' : World) :
  content_addressed e self w →
  stage self = Some stage_name →
  builder_cache_commit e self body w = Returns (true, self', w') →
  ∃ commit root,
    last_parent self' = Some commit
    ∧ w_refs w' !! get_ref self stage_name = Some commit
    ∧ w_commits w' !! commit
      = Some {| c_parent := last_parent self;
                c_subject := builder_cache_get_current self;
                c_body := body; c_root := root |}
    ∧ w_trees w' !! root = Some (snapshot w).
Proof.
  intros Hca Hst H. apply commit_leaves in H
    as (stage_name' & root1 & id1 & root2 & id2 & Hst' & Hm1 & Hc1 & Hm2 & Hc2
        & _ & _ & -> & Hs & _).
  rewrite Hst in Hst'. injection Hst' as <-.
  destruct Hs as (_ & -> & -> & ->).
  destruct (committed_world_snapshot e self body (get_ref self stage_name)
              root1 id1 root2 id2 w Hca Hm1 Hc1 Hm2 Hc2) as [Hc Ht].
  exists id1, root1. split_and!; try done.
  apply (committed_world_facts self body (get_ref self stage_name)).
Qed.

(** X14 at the same commit. *)
Lemma commit_stores_snapshot_witness :
  ∃ commit root,
    last_parent (set_last_parent (Some "commit1") cache_at_init) = Some commit
    ∧ w_refs committed !! get_ref cache_at_init "init" = Some commit
    ∧ w_commits committed !! commit
      = Some {| c_parent := last_parent cache_at_init;
                c_subject := builder_cache_get_current cache_at_init;
                c_body := "Initialized"; c_root := root |}
    ∧ w_trees committed !! root = Some (snapshot built_world).
Proof.
  apply (commit_stores_snapshot (commit_env checkout_ok) cache_at_init
           (set_last_parent (Some "commit1") cache_at_init) "Initialized"
           "init" built_world committed).
  - split; intros [=].
  - reflexivity.
  - vm_compute. reflexivity.
Defined.

(** X15: the second commit of a successful [builder_cache_commit] has no
    parent, the digest as its subject, and a tree that holds exactly the
    directories and the regular files with a link count of 1 of the
    application directory, the files [filter_only_non_hardlinked]
    allows. *)
Theorem commit_second_tree_holds_new_files (e : CommitEnv)
    (self self' : BuilderCache) (body : string) (w w' : World) :
  builder_cache_commit e self body w = Returns (true, self', w') →
  ∃ commit2 root2,
    ce_write_commit2 e = Some commit2
    ∧ w_commits w' !! commit2
      = Some {| c_parent := None;
                c_subject := builder_cache_get_current self;
                c_body := body; c_root := root2 |}
    ∧ ∀ te p,
        (∃ t2, w_trees w' !! root2 = Some t2 ∧ t2 !! p = Some te)
        ↔ ∃ fi, w_app_dir w !! p = Some fi ∧ te = tree_entry_of fi
                ∧ new_file fi.
Proof.
  intros H. apply commit_leaves in H
    as (stage_name & root1 & id1 & root2 & id2 & _ & _ & _ & _ & Hc2
        & _ & _ & _ & Hs & _).
  destruct Hs as (_ & _ & -> & ->).
  destruct (committed_world_facts self body (get_ref self stage_name)
              root1 id1 root2 id2 w) as (_ & Hid2 & Ht2 & _).
  exists id2, root2. done.
Qed.

(** X15 at the same commit. *)
Lemma commit_second_tree_holds_new_files_witness :
  ∃ commit2 root2,
    ce_write_commit2 (commit_env checkout_ok) = Some commit2
    ∧ w_commits committed !! commit2
      = Some {| c_parent := None;
                c_subject := builder_cache_get_current cache_at_init;
                c_body := "Initialized"; c_root := root2 |}
    ∧ ∀ te p,
        (∃ t2, w_trees committed !! root2 = Some t2 ∧ t2 !! p = Some te)
        ↔ ∃ fi, w_app_dir built_world !! p = Some fi ∧ te = tree_entry_of fi
                ∧ new_file fi.
Proof.
  apply (commit_second_tree_holds_new_files (commit_env checkout_ok)
           cache_at_init (set_last_parent (Some "commit1") cache_at_init)
           "Initialized" built_world committed).
  vm_compute. reflexivity.
Defined.

(** X16: with rofiles in use and active, a successful commit leaves no
    regular file with a link count of 1 in the application directory: the
    checkout of the second commit has replaced each by a hard link into the
    cache, and [filter_only_non_hardlinked] skips every regular file
    there. *)
Theorem commit_hardlinks_regular_files (e : CommitEnv)
    (self self' : BuilderCache) (body : string) (w w' : World) :
  use_rofiles (context self) = true →
  ck_rofiles_active (ce_checkout e) = true →
  builder_cache_commit e self body w = Returns (true, self', w') →
  ∀ p fi, w_app_dir w' !! p = Some fi →
          fi_type fi = G_FILE_TYPE_REGULAR →
          fi_nlink fi ≠ 1
          ∧ filter_only_non_hardlinked p fi = OSTREE_REPO_COMMIT_FILTER_SKIP.
Proof.
  enough (use_rofiles (context self) = true →
          ck_rofiles_active (ce_checkout e) = true →
          builder_cache_commit e self body w = Returns (true, self', w') →
          ∀ p fi, w_app_dir w' !! p = Some fi →
                  fi_type fi = G_FILE_TYPE_REGULAR → fi_nlink fi ≠ 1) as Hn.
  { intros Hro Hact H p fi Hp Hreg.
    pose proof (Hn Hro Hact H p fi Hp Hreg) as Hlinks. split; [done|].
    unfold filter_only_non_hardlinked. rewrite Hreg.
    rewrite decide_False by done. rewrite bool_decide_eq_true_2 by done.
    cbn. by destruct (Z.eqb_spec (fi_nlink fi) 1). }
  intros Hro Hact H. apply commit_landed in H
    as (stage_name & root1 & id1 & root2 & id2 & _ & _ & _ & _ & _
        & _ & _ & _ & H).
  cbv zeta in H. rewrite Hro in H.
  destruct (committed_world_facts self body (get_ref self stage_name)
              root1 id1 root2 id2 w) as (_ & Hid2 & Ht2 & _).
  cbv zeta in *.
  apply (checkout_user_mode _ _ _ _ _ _ Hact) in H
    as (c & t & Hc & Ht & ->).
  rewrite Hid2 in Hc. injection Hc as <-. cbn [c_root] in Ht.
  intros p fi Hp Hreg.
  apply lookup_union_Some_raw in Hp as [Hp|[Hnone Hp]].
  - apply lookup_fmap_Some in Hp as (te & <- & _). cbn in *.
    rewrite decide_True by done. done.
  - intros Hone. unfold committed_world in Hp. cbn [w_app_dir] in Hp.
    apply lookup_fmap_Some in Hp as (fi0 & <- & Hp).
    assert (∃ t2, w_trees
                    (committed_world self body (get_ref self stage_name)
                       root1 id1 root2 id2 w) !! root2 = Some t2
                  ∧ t2 !! p = Some (tree_entry_of fi0)) as (t2 & Ht2' & Hin).
    { apply Ht2. exists fi0. split; [done|]. split; [done|]. by right. }
    rewrite Ht in Ht2'. injection Ht2' as <-.
    by rewrite lookup_fmap, Hin in Hnone.
Qed.

(** X16 at the commit of the stage [init] in a build with rofiles. *)
Lemma commit_hardlinks_regular_files_witness :
  fi_nlink hello_linked ≠ 1
  ∧ filter_only_non_hardlinked "files/bin/hello" hello_linked
    = OSTREE_REPO_COMMIT_FILTER_SKIP.
Proof.
  apply (commit_hardlinks_regular_files (commit_env checkout_ok)
           cache_rofiles_at_init
           (set_last_parent (Some "commit1") cache_rofiles_at_init)
           "Initialized" built_world
           (set_w_app_dir {[ "files/bin/hello" := hello_linked ]} committed));
    vm_compute; reflexivity.
Defined.

Lemma omap_all_None {A B} (f : A → option B) (l : list A) :
  (∀ x, x ∈ l → f x = None) → omap f l = [].
Proof.
  induction l as [|x l IH]; [done|]. intros H. cbn.
  rewrite (H x) by left. apply IH. intros y Hy. apply H. by right.
Qed.

Lemma diff_dirs_same (t : gmap string TreeEntry) :
  ostree_diff_dirs true (Some t) t = Some ([], [], []).
Proof.
  unfold ostree_diff_dirs. change (default ∅ (Some t)) with t.
  cbv zeta.
  rewrite !omap_all_None; [done|..]; intros [k v] Hkv;
    apply elem_of_map_to_list in Hkv; cbn; rewrite Hkv; [done..|].
  rewrite decide_True by done. by rewrite String.eqb_refl.
Qed.

(** X17: in a store that names objects by content, right after a
    successful commit [builder_cache_get_outstanding_changes] reports
    nothing added, modified or removed, when it reads the repository
    without an I/O error. *)
Theorem no_outstanding_changes_after_commit (e : CommitEnv) (ce : ChangesEnv)
    (self self' : BuilderCache) (body : string) (w w' : World) :
  content_addressed e self w →
  ch_read_commit ce = true → ch_load_variant ce = true →
  ch_diff_dirs ce = true →
  builder_cache_commit e self body w = Returns (true, self', w') →
  builder_cache_get_outstanding_changes ce self' w' = Some ([], [], []).
Proof.
  intros Hca Hrc Hlv Hdd H.
  apply commit_leaves in H
    as (stage_name & root1 & id1 & root2 & id2 & Hst & Hm1 & Hc1 & Hm2 & Hc2
        & _ & Hex & -> & Hs & _ & Hsnap & _).
  destruct (committed_world_snapshot e self body (get_ref self stage_name)
              root1 id1 root2 id2 w Hca Hm1 Hc1 Hm2 Hc2) as [Hc Ht].
  destruct Hs as (Hex' & _ & Hcs & Hts). cbv zeta in *.
  rewrite <- Hcs in Hc. rewrite <- Hts in Ht.
  unfold builder_cache_get_outstanding_changes, ostree_repo_read_commit,
    ostree_repo_load_variant.
  cbn [last_parent set_last_parent].
  rewrite Hrc, Hlv, Hdd. cbn [mbind option_bind].
  rewrite Hc. cbn [c_root]. rewrite Ht.
  rewrite Hex'. unfold committed_world at 1; cbn [w_cache_dir_exists].
  rewrite Hex. cbn [andb].
  fold (snapshot w'). rewrite Hsnap, diff_dirs_same. done.
Qed.

(** X17 at the same commit. *)
Lemma no_outstanding_changes_after_commit_witness :
  builder_cache_get_outstanding_changes changes_ok
    (set_last_parent (Some "commit1") cache_at_init) committed
  = Some ([], [], []).
Proof.
  apply (no_outstanding_changes_after_commit (commit_env checkout_ok)
           changes_ok cache_at_init
           (set_last_parent (Some "commit1") cache_at_init) "Initialized"
           built_world committed).
  - split; intros [=].
  - reflexivity.
  - reflexivity.
  - reflexivity.
  - vm_compute. reflexivity.
Defined.

(** X27: a hit, a miss and a commit in a row. In a store that names
    objects by content, the commit the ref of the missed stage points to
    afterwards has the commit of the hit stage as its parent, the digest as
    its subject, and as its tree the application directory as the commit
    found it. *)
Theorem commit_after_hit_is_child_of_hit (le1 le2 : LookupEnv)
    (ce : CommitEnv) (self self1 self2 self3 : BuilderCache)
    (stage1 stage2 body : string) (w w1 w2 w3 : World) :
  builder_cache_lookup le1 self stage1 w = Returns (true, self1, w1) →
  builder_cache_lookup le2 self1 stage2 w1 = Returns (false, self2, w2) →
  content_addressed ce self2 w2 →
  builder_cache_commit ce self2 body w2 = Returns (true, self3, w3) →
  ∃ hit commit root,
    w_refs w !! get_ref self stage1 = Some hit
    ∧ w_refs w3 !! get_ref self stage2 = Some commit
    ∧ last_parent self3 = Some commit
    ∧ w_commits w3 !! commit
      = Some {| c_parent := Some hit;
                c_subject := builder_cache_get_current self;
                c_body := body; c_root := root |}
    ∧ w_trees w3 !! root = Some (snapshot w2).
Proof.
  intros H1 H2 Hca H3.
  destruct (lookup_cases le1 self stage1 w)
    as [[Hd E]|[(Hd & hit & c & Hr & Hc & _ & E)|[Hd E]]];
    rewrite E in H1; [done| |by repeat case_match; simplify_eq].
  simplify_eq.
  assert (stage self2 = Some stage2 ∧ last_parent self2 = Some hit
          ∧ checksum self2 = checksum self ∧ branch self2 = branch self)
    as (Hst & Hlp & Hck & Hbr).
  { destruct (lookup_cases le2
                (set_last_parent (Some hit) (lookup_begin self stage1))
                stage2 w1)
      as [[Hd' E']|[(Hd' & ? & ? & _ & _ & _ & E')|[Hd' E']]];
      rewrite E' in H2; [by simplify_eq|done|].
    cbn [last_parent set_last_parent] in H2.
    destruct (builder_cache_checkout _ _ _ _ _) as [[] w'] eqn:Hco; [|done].
    by simplify_eq. }
  apply commit_leaves in H3
    as (stage_name & root1 & id1 & root2 & id2 & Hst' & Hm1 & Hc1 & Hm2 & Hc2
        & _ & _ & -> & Hs & _).
  rewrite Hst in Hst'. injection Hst' as <-.
  destruct (committed_world_snapshot ce self2 body (get_ref self2 stage2)
              root1 id1 root2 id2 w2 Hca Hm1 Hc1 Hm2 Hc2) as [Hcommit Htree].
  destruct Hs as (_ & -> & -> & ->).
  exists hit, id1, root1.
  rewrite <- (get_ref_branch self2 self stage2 Hbr).
  split_and!; try done.
  - apply (committed_world_facts self2 body (get_ref self2 stage2)).
  - cbv zeta in Hcommit. rewrite Hcommit, Hlp.
    unfold builder_cache_get_current. by rewrite Hck.
Qed.

(** X27 at the hit of [init], the miss of [build] and its commit. *)
Lemma commit_after_hit_is_child_of_hit_witness :
  ∃ hit commit root,
    w_refs cached_world !! get_ref (builder_cache_new ctx_plain "app") "init"
    = Some hit
    ∧ w_refs (committed_world
                (set_disabled true (lookup_begin cache_after_hit "build"))
                "Built" "app/build" "tree4" "commit4" "tree5" "commit5"
                checked_out_world)
        !! get_ref (builder_cache_new ctx_plain "app") "build"
      = Some commit
    ∧ last_parent
        (set_last_parent (Some "commit4")
           (set_disabled true (lookup_begin cache_after_hit "build")))
      = Some commit
    ∧ w_commits (committed_world
                   (set_disabled true (lookup_begin cache_after_hit "build"))
                   "Built" "app/build" "tree4" "commit4" "tree5" "commit5"
                   checked_out_world) !! commit
      = Some {| c_parent := Some hit;
                c_subject :=
                  builder_cache_get_current
                    (builder_cache_new ctx_plain "app");
                c_body := "Built"; c_root := root |}
    ∧ w_trees (committed_world
                 (set_disabled true (lookup_begin cache_after_hit "build"))
                 "Built" "app/build" "tree4" "commit4" "tree5" "commit5"
                 checked_out_world) !! root
      = Some (snapshot checked_out_world).
Proof.
  apply (commit_after_hit_is_child_of_hit lookup_ok lookup_ok commit_env_build
           (builder_cache_new ctx_plain "app") cache_after_hit
           (set_disabled true (lookup_begin cache_after_hit "build"))
           (set_last_parent (Some "commit4")
              (set_disabled true (lookup_begin cache_after_hit "build")))
           "init" "build" "Built" cached_world cached_world checked_out_world
           (committed_world
              (set_disabled true (lookup_begin cache_after_hit "build"))
              "Built" "app/build" "tree4" "commit4" "tree5" "commit5"
              checked_out_world)).
  - vm_compute. reflexivity.
  - vm_compute. reflexivity.
  - split; intros [=].
  - vm_compute. reflexivity.
Defined.

(** ** Changes *)

Lemma tree_entry_eq (a b : TreeEntry) :
  a = b ↔ te_type a = te_type b ∧ te_content a = te_content b.
Proof.
  split; [by intros ->|]. destruct a, b; cbn. by intros [-> ->].
Qed.

Lemma diff_dirs_spec (io_ok : bool) (a : option (gmap string TreeEntry))
    (b : gmap string TreeEntry) (modified removed added : list string) :
  ostree_diff_dirs io_ok a b = Some (modified, removed, added) →
  (∀ p, p ∈ modified
        ↔ ∃ old new, default ∅ a !! p = Some old ∧ b !! p = Some new
                     ∧ old ≠ new)
  ∧ (∀ p, p ∈ removed ↔ is_Some (default ∅ a !! p) ∧ b !! p = None)
  ∧ (∀ p, p ∈ added ↔ default ∅ a !! p = None ∧ is_Some (b !! p)).
Proof.
  unfold ostree_diff_dirs. destruct io_ok; [|done]. cbv zeta.
  intros [= <- <- <-]. split_and!; intros p; rewrite list_elem_of_omap.
  - split.
    + intros ([k new] & Hin & Hf). apply elem_of_map_to_list in Hin.
      cbn in Hf. destruct (default ∅ a !! k) as [old|] eqn:Ha; [|done].
      assert (k = p ∧ old ≠ new) as [-> Hne].
      { rewrite tree_entry_eq.
        destruct (decide (te_type old = te_type new)) as [Ht|Ht].
        - destruct (String.eqb_spec (te_content old) (te_content new));
            [done|]. simplify_eq. split; [done|]. by intros [_ ?].
        - simplify_eq. split; [done|]. by intros [? _]. }
      eauto.
    + intros (old & new & Ha & Hb & Hne). exists (p, new).
      split; [by apply elem_of_map_to_list|]. cbn. rewrite Ha.
      destruct (decide (te_type old = te_type new)) as [Ht|Ht]; [|done].
      destruct (String.eqb_spec (te_content old) (te_content new)); [|done].
      exfalso. apply Hne. by apply tree_entry_eq.
  - split.
    + intros ([k old] & Hin & Hf). apply elem_of_map_to_list in Hin.
      cbn in Hf. destruct (b !! k) eqn:Hb; [done|]. simplify_eq. eauto.
    + intros ([old Ha] & Hb). exists (p, old).
      split; [by apply elem_of_map_to_list|]. cbn. by rewrite Hb.
  - split.
    + intros ([k new] & Hin & Hf). apply elem_of_map_to_list in Hin.
      cbn in Hf. destruct (default ∅ a !! k) eqn:Ha; [done|]. simplify_eq.
      eauto.
    + intros (Ha & [new Hb]). exists (p, new).
      split; [by apply elem_of_map_to_list|]. cbn. by rewrite Ha.
Qed.

(** The paths reported between two trees: those of the second tree whose
    entry is not in the first tree as it is. *)
Lemma changed_paths_spec (io_ok : bool) (a : option (gmap string TreeEntry))
    (b : gmap string TreeEntry) (modified removed added : list string) :
  ostree_diff_dirs io_ok a b = Some (modified, removed, added) →
  ∀ p, p ∈ (added ++ modified)%list
       ↔ ∃ te, b !! p = Some te ∧ default ∅ a !! p ≠ Some te.
Proof.
  intros H p. apply diff_dirs_spec in H as (Hm & _ & Ha).
  rewrite elem_of_app, Hm, Ha. split.
  - intros [[Hn [te Hb]]|(old & new & Ho & Hb & Hne)].
    + exists te. by rewrite Hn.
    + exists new. rewrite Ho. split; [done|]. by intros [= ->].
  - intros (te & Hb & Hne). destruct (default ∅ a !! p) as [old|] eqn:Ho.
    + right. exists old, te. split_and!; try done. by intros ->.
    + left. eauto.
Qed.





(** X19: when [builder_cache_get_all_changes] returns a list, the refs of
    the stages [init] and [finish] both exist, and the list holds exactly
    the paths of the tree of [finish] that are not in the tree of [init] or
    have another type or content there; paths removed since [init] are not
    reported. *)
Theorem all_changes_are_new_or_modified_in_finish (e : ChangesEnv)
    (self : BuilderCache) (w : World) (paths : list string) :
  builder_cache_get_all_changes e self w = Some paths →
  ∃ init_commit finish_commit ci cf init_root finish_root,
    w_refs w !! get_ref self "init" = Some init_commit
    ∧ w_refs w !! get_ref self "finish" = Some finish_commit
    ∧ get_ref self "init" = branch self +:+ "/init"
    ∧ get_ref self "finish" = branch self +:+ "/finish"
    ∧ w_commits w !! init_commit = Some ci
    ∧ w_commits w !! finish_commit = Some cf
    ∧ w_trees w !! c_root ci = Some init_root
    ∧ w_trees w !! c_root cf = Some finish_root
    ∧ ∀ p, p ∈ paths
           ↔ ∃ te, finish_root !! p = Some te ∧ init_root !! p ≠ Some te.
Proof.
  unfold builder_cache_get_all_changes, ostree_repo_resolve_rev,
    ostree_repo_read_commit.
  rewrite !(get_ref_plain self) by done.
  intros H.
  destruct (ch_resolve_rev e && w_cache_dir_exists w); [|done].
  destruct (w_refs w !! (branch self +:+ "/" +:+ "init"))
    as [init_commit|] eqn:Hi; [|done].
  destruct (w_refs w !! (branch self +:+ "/" +:+ "finish"))
    as [finish_commit|] eqn:Hf; [|done].
  destruct (ch_read_commit e); [|done].
  destruct (w_commits w !! init_commit) as [ci|] eqn:Hci; [|done].
  destruct (w_trees w !! c_root ci) as [init_root|] eqn:Hti; [|done].
  destruct (w_commits w !! finish_commit) as [cf|] eqn:Hcf; [|done].
  destruct (w_trees w !! c_root cf) as [finish_root|] eqn:Htf; [|done].
  destruct (ostree_diff_dirs _ _ _) as [[[modified removed] added]|] eqn:Hd;
    [|done].
  injection H as <-.
  exists init_commit, finish_commit, ci, cf, init_root, finish_root.
  split_and!; try done.
  apply (changed_paths_spec _ _ _ _ _ _ Hd).
Qed.

(** X19 on a repository whose stage [finish] added one file. *)
Lemma all_changes_are_new_or_modified_in_finish_witness :
  ∃ init_commit finish_commit ci cf init_root finish_root,
    w_refs finished_world !! get_ref (builder_cache_new ctx_plain "app") "init"
    = Some init_commit
    ∧ w_refs finished_world
        !! get_ref (builder_cache_new ctx_plain "app") "finish"
      = Some finish_commit
    ∧ get_ref (builder_cache_new ctx_plain "app") "init"
      = branch (builder_cache_new ctx_plain "app") +:+ "/init"
    ∧ get_ref (builder_cache_new ctx_plain "app") "finish"
      = branch (builder_cache_new ctx_plain "app") +:+ "/finish"
    ∧ w_commits finished_world !! init_commit = Some ci
    ∧ w_commits finished_world !! finish_commit = Some cf
    ∧ w_trees finished_world !! c_root ci = Some init_root
    ∧ w_trees finished_world !! c_root cf = Some finish_root
    ∧ ∀ p, p ∈ ["metadata"]
           ↔ ∃ te, finish_root !! p = Some te ∧ init_root !! p ≠ Some te.
Proof.
  apply (all_changes_are_new_or_modified_in_finish changes_ok
           (builder_cache_new ctx_plain "app") finished_world ["metadata"]).
  vm_compute. reflexivity.
Defined.

(** X20: when [builder_cache_get_changes] returns a list, [last_parent]
    is a commit of the repository and the list holds exactly the paths of
    its tree that are not in the tree of its parent commit or have another
    type or content there; every path of its tree when it has no
    parent. *)
Theorem changes_are_new_or_modified_in_last_commit (e : ChangesEnv)
    (self : BuilderCache) (w : World) (paths : list string) :
  builder_cache_get_changes e self w = Some paths →
  ∃ commit c current_root,
    last_parent self = Some commit
    ∧ w_commits w !! commit = Some c
    ∧ w_trees w !! c_root c = Some current_root
    ∧ match c_parent c with
      | None => ∀ p, p ∈ paths ↔ is_Some (current_root !! p)
      | Some parent_commit =>
          ∃ pc parent_root,
            w_commits w !! parent_commit = Some pc
            ∧ w_trees w !! c_root pc = Some parent_root
            ∧ ∀ p, p ∈ paths
                   ↔ ∃ te, current_root !! p = Some te
                           ∧ parent_root !! p ≠ Some te
      end.
Proof.
  unfold builder_cache_get_changes, ostree_repo_read_commit,
    ostree_repo_load_variant.
  intros H.
  destruct (ch_read_commit e); [|done].
  destruct (last_parent self) as [commit|]; [|done].
  destruct (w_commits w !! commit) as [c|] eqn:Hc; [|done].
  destruct (w_trees w !! c_root c) as [current_root|] eqn:Ht; [|done].
  cbn [mbind option_bind] in H.
  destruct (ch_load_variant e && w_cache_dir_exists w); [|done].
  rewrite Hc in H.
  exists commit, c, current_root. split_and!; try done.
  destruct (c_parent c) as [parent_commit|].
  - destruct (w_commits w !! parent_commit) as [pc|] eqn:Hpc; [|done].
    destruct (w_trees w !! c_root pc) as [parent_root|] eqn:Hpt; [|done].
    destruct (ostree_diff_dirs _ _ _) as [[[modified removed] added]|] eqn:Hd;
      [|done].
    injection H as <-. exists pc, parent_root. split_and!; try done.
    apply (changed_paths_spec _ _ _ _ _ _ Hd).
  - destruct (ostree_diff_dirs _ _ _) as [[[modified removed] added]|] eqn:Hd;
      [|done].
    injection H as <-. intros p.
    rewrite (changed_paths_spec _ _ _ _ _ _ Hd p). cbn [default].
    rewrite lookup_empty. split.
    + intros (te & Hte & _). eauto.
    + intros [te Hte]. eauto.
Qed.

(** X20 for the commit of [finish], whose parent is that of [init]. *)
Lemma changes_are_new_or_modified_in_last_commit_witness :
  ∃ commit c current_root,
    last_parent (set_last_parent (Some "commit3")
                   (builder_cache_new ctx_plain "app")) = Some commit
    ∧ w_commits finished_world !! commit = Some c
    ∧ w_trees finished_world !! c_root c = Some current_root
    ∧ match c_parent c with
      | None => ∀ p, p ∈ ["metadata"] ↔ is_Some (current_root !! p)
      | Some parent_commit =>
          ∃ pc parent_root,
            w_commits finished_world !! parent_commit = Some pc
            ∧ w_trees finished_world !! c_root pc = Some parent_root
            ∧ ∀ p, p ∈ ["metadata"]
                   ↔ ∃ te, current_root !! p = Some te
                           ∧ parent_root !! p ≠ Some te
      end.
Proof.
  apply (changes_are_new_or_modified_in_last_commit changes_ok
           (set_last_parent (Some "commit3")
              (builder_cache_new ctx_plain "app"))
           finished_world ["metadata"]).
  vm_compute. reflexivity.
Defined.

(** ** Garbage collection, continued *)

Lemma gc_remove_unused_frame (e : GcEnv) (self : BuilderCache)
    (keys : list string) (b : bool) (w w' : World) :
  gc_remove_unused e self keys w = (b, w') →
  w_refs w' ⊆ w_refs w
  ∧ w_commits w' = w_commits w
  ∧ w_trees w' = w_trees w
  ∧ w_app_dir w' = w_app_dir w
  ∧ w_txn w' = w_txn w.
Proof.
  revert w. induction keys as [|k keys IH]; intros w H; cbn in H.
  - by simplify_eq.
  - unfold ostree_repo_set_ref_immediate in H.
    destruct (_ && _); [|by simplify_eq].
    apply IH in H as (Hr & -> & -> & -> & ->). split; [|done].
    etrans; [exact Hr|]. apply delete_subseteq.
Qed.

(** X21: [builder_gc] never touches the application directory, and only
    removes refs. When it succeeds the refs derived from the names left in
    [unused_stages] are gone, every other ref is as before, and no object
    was added; when it fails no object was pruned. *)
Theorem gc_deletes_exactly_unused (e : GcEnv) (self : BuilderCache)
    (r : bool) (w w' : World) :
  builder_gc e self w = (r, w') →
  w_app_dir w' = w_app_dir w
  ∧ w_txn w' = w_txn w
  ∧ w_refs w' ⊆ w_refs w
  ∧ if r
    then (∀ k, k ∈ unused_stages self → w_refs w' !! get_ref self k = None)
         ∧ (∀ ref, (∀ k, k ∈ unused_stages self → get_ref self k ≠ ref) →
                   w_refs w' !! ref = w_refs w !! ref)
         ∧ w_commits w' ⊆ w_commits w
         ∧ w_trees w' ⊆ w_trees w
    else w_commits w' = w_commits w ∧ w_trees w' = w_trees w.
Proof.
  intros H. pose proof H as H0. unfold builder_gc in H.
  destruct (gc_remove_unused _ _ _ _) as [[] w1] eqn:Hrm.
  - apply gc_remove_unused_frame in Hrm as (Hr & Hc & Ht & Hd & Hx).
    unfold ostree_repo_prune in H. destruct (gc_prune e).
    + simplify_eq. destruct (gc_refs _ _ _ _ H0) as [Hdel Hkeep].
      cbn in *. do 3 (split; [done|]). do 2 (split; [done|]). split.
      * rewrite <- Hc. apply map_filter_subseteq.
      * rewrite <- Ht. apply map_filter_subseteq.
    + by simplify_eq.
  - simplify_eq.
    apply gc_remove_unused_frame in Hrm as (Hr & Hc & Ht & Hd & Hx). done.
Qed.

(** X21 for a cache that looked up [init] and not [finish]. *)
Lemma gc_deletes_exactly_unused_witness :
  w_app_dir cached_world = w_app_dir finished_world
  ∧ w_txn cached_world = w_txn finished_world
  ∧ w_refs cached_world ⊆ w_refs finished_world
  ∧ (∀ k, k ∈ unused_stages
                (set_unused_stages {[ "finish" ]}
                   (builder_cache_new ctx_plain "app")) →
          w_refs cached_world
            !! get_ref (set_unused_stages {[ "finish" ]}
                          (builder_cache_new ctx_plain "app")) k = None)
  ∧ (∀ ref,
       (∀ k, k ∈ unused_stages
                   (set_unused_stages {[ "finish" ]}
                      (builder_cache_new ctx_plain "app")) →
             get_ref (set_unused_stages {[ "finish" ]}
                        (builder_cache_new ctx_plain "app")) k ≠ ref) →
       w_refs cached_world !! ref = w_refs finished_world !! ref)
  ∧ w_commits cached_world ⊆ w_commits finished_world
  ∧ w_trees cached_world ⊆ w_trees finished_world.
Proof.
  apply (gc_deletes_exactly_unused gc_ok
           (set_unused_stages {[ "finish" ]}
              (builder_cache_new ctx_plain "app"))
           true finished_world cached_world).
  vm_compute. reflexivity.
Defined.

(** X22: after a successful [builder_gc], the commit a surviving ref
    points to is still in the repository, and so is its tree. *)
Theorem gc_keeps_commits_of_surviving_refs (e : GcEnv) (self : BuilderCache)
    (w w' : World) (ref commit : string) (c : Commit) :
  builder_gc e self w = (true, w') →
  w_refs w' !! ref = Some commit →
  w_commits w !! commit = Some c →
  w_commits w' !! commit = Some c
  ∧ w_trees w' !! c_root c = w_trees w !! c_root c.
Proof.
  unfold builder_gc.
  destruct (gc_remove_unused _ _ _ _) as [[] w1] eqn:Hrm; [|done].
  apply gc_remove_unused_frame in Hrm as (_ & Hc & Ht & _).
  unfold ostree_repo_prune. destruct (gc_prune e); [|done].
  intros [= <-]. cbn [w_refs w_commits w_trees set_w_trees set_w_commits].
  rewrite Hc, Ht. intros Href Hcommit.
  assert (w_commits w !! commit = Some c ∧
          commit ∈ ⋃ (ancestors (w_commits w) (size (w_commits w)) <$>
                        (map_to_list (w_refs w1)).*2)) as Hlive.
  { split; [done|]. apply elem_of_union_list.
    exists (ancestors (w_commits w) (size (w_commits w)) commit). split.
    - apply list_elem_of_fmap. exists commit. split; [done|].
      apply list_elem_of_fmap. exists (ref, commit). split; [done|].
      by apply elem_of_map_to_list.
    - pose proof (map_size_ne_0_lookup_2 (w_commits w) commit
                    (mk_is_Some _ _ Hcommit)) as Hsz.
      destruct (size (w_commits w)); [done|]. cbn. rewrite Hcommit.
      set_solver. }
  destruct Hlive as [_ Hlive]. split.
  - apply map_lookup_filter_Some. split; [done|exact Hlive].
  - destruct (w_trees w !! c_root c) as [t|] eqn:Htree.
    + apply map_lookup_filter_Some. split; [done|]. cbn.
      apply elem_of_list_to_set, list_elem_of_fmap. exists (commit, c).
      split; [done|]. apply elem_of_map_to_list.
      apply map_lookup_filter_Some. split; [done|exact Hlive].
    + apply map_lookup_filter_None. by left.
Qed.

(** X22 for the same cache: the commit of [init] survives. *)
Lemma gc_keeps_commits_of_surviving_refs_witness :
  w_commits cached_world !! "commit1" = Some commit1
  ∧ w_trees cached_world !! c_root commit1
    = w_trees finished_world !! c_root commit1.
Proof.
  apply (gc_keeps_commits_of_surviving_refs gc_ok
           (set_unused_stages {[ "finish" ]}
              (builder_cache_new ctx_plain "app"))
           finished_world cached_world "app/init" "commit1" commit1);
    vm_compute; reflexivity.
Defined.

Lemma step_unused_stages (op : Op) (self self' : BuilderCache) (r : Ret)
    (w w' : World) :
  step op self w = Returns (r, self', w') →
  is_open op = false →
  unused_stages self' ⊆ unused_stages self
  ∧ ∀ e stage_name, op = OpLookup e stage_name →
                    stage_name ∉ unused_stages self'.
Proof.
  destruct op as [e|e stage_name| |e|e body|e|e|e| |e|i]; simpl; intros H Ho;
    try done.
  - destruct (builder_cache_lookup e self stage_name w)
      as [[[b s1] w1]|] eqn:E; [|done].
    simplify_eq. apply lookup_unused_stages in E. rewrite E.
    split; [by apply subseteq_difference_l|]. intros ? ? [= _ <-].
    apply not_elem_of_difference. right. by apply elem_of_singleton.
  - by simplify_eq.
  - unfold builder_cache_ensure_checkout in H.
    repeat case_match; simplify_eq/=; done.
  - destruct (builder_cache_commit e self body w) as [[[b s1] w1]|] eqn:E;
      [|done]. simplify_eq.
    destruct (commit_cache _ _ _ _ _ _ _ E) as [->|[id ->]]; done.
  - by simplify_eq.
  - by simplify_eq.
  - by simplify_eq.
  - by simplify_eq.
  - destruct (builder_gc e self w). by simplify_eq.
  - simplify_eq. rewrite feed_encode. done.
Qed.

Lemma run_unused_stages (ops : list Op) (self self' : BuilderCache)
    (rs : list Ret) (w w' : World) :
  run ops self w = Returns (rs, self', w') →
  forallb (λ op, negb (is_open op)) ops = true →
  unused_stages self' ⊆ unused_stages self
  ∧ ∀ e stage_name, OpLookup e stage_name ∈ ops →
                    stage_name ∉ unused_stages self'.
Proof.
  revert self rs w. induction ops as [|op ops IH]; intros self rs w H Ho.
  - simplify_eq/=. split; [done|]. intros ? ? Hin. by apply elem_of_nil in Hin.
  - cbn [run] in H. cbn [forallb] in Ho.
    apply andb_true_iff in Ho as [Ho1 Ho].
    apply negb_true_iff in Ho1.
    destruct (step op self w) as [[[r s1] w1]|] eqn:E; [|done].
    destruct (run ops s1 w1) as [[[rs1 s2] w2]|] eqn:E2; [|done].
    simplify_eq.
    destruct (step_unused_stages _ _ _ _ _ _ E Ho1) as [Hs Hl].
    destruct (IH _ _ _ E2 Ho) as [Hs' Hl'].
    split; [by etrans|]. intros e stage_name Hin.
    apply elem_of_cons in Hin as [<-|Hin]; [|by eapply Hl'].
    intros Hk. by apply (Hl _ _ eq_refl), Hs'.
Qed.

(** X28: over a run of calls that does not open the cache again, a stage
    that was looked up is not in [unused_stages] at the end; when its name
    and the names left there need no escaping, a successful [builder_gc]
    after the run leaves its ref as it was. *)
Theorem looked_up_plain_stage_survives_gc (ops : list Op)
    (self self' : BuilderCache) (rs : list Ret) (w w' w2 : World)
    (le : LookupEnv) (stage_name : string) (ge : GcEnv) :
  run ops self w = Returns (rs, self', w') →
  forallb (λ op, negb (is_open op)) ops = true →
  OpLookup le stage_name ∈ ops →
  plain stage_name = true →
  (∀ k, k ∈ unused_stages self' → plain k = true) →
  builder_gc ge self' w' = (true, w2) →
  (stage_name ∉ unused_stages self')
  ∧ w_refs w2 !! get_ref self' stage_name
    = w_refs w' !! get_ref self' stage_name.
Proof.
  intros Hrun Hno Hin Hp Hkeys Hgc.
  destruct (run_unused_stages _ _ _ _ _ _ Hrun Hno) as [_ Hl].
  specialize (Hl _ _ Hin). split; [done|].
  by apply (gc_plain_stages _ _ _ _ _ Hgc Hkeys Hp).
Qed.

(** X28 for a cache that looked up [init] and not [finish]. *)
Lemma looked_up_plain_stage_survives_gc_witness :
  ("init" ∉ unused_stages
              (set_last_parent (Some "commit1")
                 (lookup_begin
                    (set_unused_stages {[ "init"; "finish" ]}
                       (builder_cache_new ctx_plain "app")) "init")))
  ∧ w_refs cached_world
      !! get_ref (set_last_parent (Some "commit1")
                    (lookup_begin
                       (set_unused_stages {[ "init"; "finish" ]}
                          (builder_cache_new ctx_plain "app")) "init"))
           "init"
    = w_refs finished_world
        !! get_ref (set_last_parent (Some "commit1")
                      (lookup_begin
                         (set_unused_stages {[ "init"; "finish" ]}
                            (builder_cache_new ctx_plain "app")) "init"))
             "init".
Proof.
  apply (looked_up_plain_stage_survives_gc [OpLookup lookup_ok "init"]
           (set_unused_stages {[ "init"; "finish" ]}
              (builder_cache_new ctx_plain "app"))
           (set_last_parent (Some "commit1")
              (lookup_begin
                 (set_unused_stages {[ "init"; "finish" ]}
                    (builder_cache_new ctx_plain "app")) "init"))
           [RetBool true] finished_world finished_world cached_world
           lookup_ok "init" gc_ok).
  - vm_compute. reflexivity.
  - reflexivity.
  - by left.
  - reflexivity.
  - intros k Hk. cbn in Hk. apply elem_of_difference in Hk as [Hk Hne].
    apply elem_of_union in Hk as [Hk|Hk]; apply elem_of_singleton in Hk;
      subst k; [|reflexivity].
    exfalso. apply Hne. by apply elem_of_singleton.
  - vm_compute. reflexivity.
Defined.

Lemma gc_only_removes_refs (e : GcEnv) (self : BuilderCache) (r : bool)
    (w w' : World) :
  builder_gc e self w = (r, w') → w_refs w' ⊆ w_refs w.
Proof.
  unfold builder_gc, ostree_repo_prune.
  destruct (gc_remove_unused _ _ _ _) as [[] w1] eqn:Hrm;
    apply gc_remove_unused_frame in Hrm as (Hr & _);
    repeat case_match; intros; by simplify_eq/=.
Qed.

(** X29: a cache that is opened and collected with no lookup in between
    loses every stage: after the successful [builder_gc] no ref that
    [get_ref] derives for the branch is left. *)
Theorem gc_without_lookup_deletes_every_stage (oe : OpenEnv) (ge : GcEnv)
    (self opened : BuilderCache) (w w1 w2 : World) :
  builder_cache_open oe self w = (true, opened, w1) →
  builder_gc ge opened w1 = (true, w2) →
  ∀ stage_name, w_refs w2 !! get_ref self stage_name = None.
Proof.
  intros Ho Hgc stage_name.
  destruct (open_success _ _ _ _ _ Ho) as ((refs & -> & Hk) & _).
  destruct (gc_refs _ _ _ _ Hgc) as [Hdel _].
  pose proof (gc_only_removes_refs _ _ _ _ _ Hgc) as Hsub.
  set (token := get_ref_loop stage_name "").
  assert (get_ref self stage_name = branch self +:+ "/" +:+ token) as Href.
  { by rewrite get_ref_below_branch, append_assoc. }
  destruct (w_refs w1 !! get_ref self stage_name) as [commit|] eqn:Hin.
  - assert (token ∈ refs) as Htok.
    { apply Hk. rewrite <- Href, Hin. eauto. }
    specialize (Hdel token Htok).
    rewrite (get_ref_plain _ token (escape_plain _)) in Hdel.
    cbn [branch set_unused_stages] in Hdel. by rewrite Href.
  - eapply lookup_weaken_None; [exact Hin|exact Hsub].
Qed.

(** X29 on a repository that holds the stages [init] and [finish]. *)
Lemma gc_without_lookup_deletes_every_stage_witness :
  w_refs (set_w_app_dir ∅ built_world)
    !! get_ref (builder_cache_new ctx_plain "app") "init" = None.
Proof.
  apply (gc_without_lookup_deletes_every_stage open_ok gc_ok
           (builder_cache_new ctx_plain "app")
           (set_unused_stages {[ "init"; "finish" ]}
              (builder_cache_new ctx_plain "app"))
           finished_world finished_world (set_w_app_dir ∅ built_world));
    vm_compute; reflexivity.
Defined.

(** ** Opening, continued *)

(** X23: [builder_cache_open] never touches the application directory.
    A failed open returns the cache as it was. A successful one changes
    [unused_stages] only, to exactly the names below the branch in the
    repository it leaves; the ref once named after the branch alone is
    gone when its deletion met no error; and a repository it had to create
    holds no ref, so that no stage is listed. *)
Theorem open_lists_stages (e : OpenEnv) (self self' : BuilderCache)
    (r : bool) (w w' : World) :
  builder_cache_open e self w = (r, self', w') →
  w_app_dir w' = w_app_dir w
  ∧ if r
    then self' = set_unused_stages (unused_stages self') self
         ∧ (∀ k, k ∈ unused_stages self'
                 ↔ is_Some (w_refs w' !! (branch self +:+ "/" +:+ k)))
         ∧ w_cache_dir_exists w' = true
         ∧ (oe_set_ref_immediate e = true → w_refs w' !! branch self = None)
         ∧ (w_cache_dir_exists w = false →
            w_refs w' = ∅ ∧ unused_stages self' = ∅)
    else self' = self.
Proof.
  destruct r; intros H.
  - destruct (open_success _ _ _ _ _ H) as ((refs & -> & Hk) & Hex & Hd & _).
    split; [done|]. split; [done|]. split; [done|]. split; [done|].
    unfold builder_cache_open, ostree_repo_create,
      ostree_repo_set_ref_immediate, ostree_repo_list_refs in H.
    split.
    + intros Hset. rewrite Hset in H.
      repeat case_match; simplify_eq/=; rewrite ?lookup_delete_eq;
        congruence.
    + intros Hno. rewrite Hno in H.
      repeat case_match; simplify_eq/=;
        rewrite ?delete_empty, ?dom_empty_L, ?elements_empty;
        done || congruence.
  - unfold builder_cache_open, ostree_repo_create,
      ostree_repo_set_ref_immediate in H.
    repeat case_match; simplify_eq/=; done.
Qed.

(** X23 on a repository that holds the stage [init]. *)
Lemma open_lists_stages_witness :
  w_app_dir cached_world = w_app_dir cached_world
  ∧ set_unused_stages {[ "init" ]} (builder_cache_new ctx_plain "app")
    = set_unused_stages
        (unused_stages
           (set_unused_stages {[ "init" ]}
              (builder_cache_new ctx_plain "app")))
        (builder_cache_new ctx_plain "app")
  ∧ (∀ k, k ∈ unused_stages
                (set_unused_stages {[ "init" ]}
                   (builder_cache_new ctx_plain "app"))
          ↔ is_Some (w_refs cached_world
                       !! (branch (builder_cache_new ctx_plain "app")
                           +:+ "/" +:+ k)))
  ∧ w_cache_dir_exists cached_world = true
  ∧ (oe_set_ref_immediate open_ok = true →
     w_refs cached_world !! branch (builder_cache_new ctx_plain "app") = None)
  ∧ (w_cache_dir_exists cached_world = false →
     w_refs cached_world = ∅
     ∧ unused_stages
         (set_unused_stages {[ "init" ]}
            (builder_cache_new ctx_plain "app")) = ∅).
Proof.
  apply (open_lists_stages open_ok (builder_cache_new ctx_plain "app")
           (set_unused_stages {[ "init" ]}
              (builder_cache_new ctx_plain "app"))
           true cached_world cached_world).
  vm_compute. reflexivity.
Defined.
